(** * The constraint cascade of [src/constraints.py]

    A shallow embedding of [compute_boundary_items] and [apply_constraints]
    together with the pandas operations they call, followed by the
    properties of the cascade.

    Conventions of the embedding.
    - A pandas [DataFrame] is its list of column names and its list of
      rows, in index order ([reset_index(drop=True)] and [copy()] are the
      identity on that view).
    - A row of the scored population is the [Candidate] of [src/types.py].
    - Python [int]s are [Z]; Python [float]s are taken as exact rationals
      ([Qc], canonical fractions, so that equal numbers are equal terms):
      comparisons are those of finite floats, subtraction is not rounded
      (in binary64 the scenario's margin [0.5 - 0.4] is
      [0.09999999999999998], within rounding of [0.1]), and there is no
      NaN and no infinity: every number is finite.
    - Python exceptions are the constructors of [result].

    After the cascade come [get_boundary_for_stage] of [app.py] and the
    scorer [score_candidates] of [src/model.py], whose exceptions are the
    constructors of [scoring]; the logistic function of the scorer is a
    parameter of its embedding. *)

From Stdlib Require Import QArith Qcanon Lqa.
From Stdlib Require OrderedTypeEx.
From stdpp Require Import base list sorting gmap strings pretty.

Local Open Scope Z_scope.

(** ** Rows, frames and results *)

(** [src/types.py], class [Candidate] (the columns the generator and the
    scorer produce). *)
Record Candidate : Type := mkCandidate {
  id : string;
  urgency : Qc;
  confidence : Qc;
  impact : Qc;
  cost : Qc;
  case_type : string;
  logit : Qc;
  score : Qc
}.

#[global] Instance Candidate_eq_dec : EqDecision Candidate.
Proof. solve_decision. Defined.

(** A row of the [dropped] frame: the candidate's own columns and the three
    columns that [apply_constraints] assigns. *)
Record DroppedItem : Type := mkDropped {
  candidate : Candidate;
  dropped_reason : string;
  capacity_stage : string;
  inclusion_margin : Qc
}.

Record DataFrame (R : Type) : Type := mkDF {
  columns : list string;
  rows : list R
}.
Arguments mkDF {R} _ _.
Arguments columns {R} _.
Arguments rows {R} _.

(** What a call can raise: [iloc[-1]] on an empty frame, and [assert]. *)
Inductive result (A : Type) : Type :=
| Ok (a : A)
| IndexError
| AssertionError (msg : string).
Arguments Ok {A} _.
Arguments IndexError {A}.
Arguments AssertionError {A} _.

#[global] Instance result_ret : MRet result := λ A, Ok.

#[global] Instance result_bind : MBind result := λ A B k r,
  match r with
  | Ok a => k a
  | IndexError => IndexError
  | AssertionError msg => AssertionError msg
  end.

(** [assert cond, msg] *)
Definition assert (cond : bool) (msg : string) : result unit :=
  if cond then mret tt else AssertionError msg.

(** ** Comparisons *)

Definition Qcleb (x y : Qc) : bool := Qle_bool x y.

(** A sort key: one column with its direction, as a three-way comparison
    of two rows. Several keys compare lexicographically, as
    [sort_values] does with a list of columns. *)
Fixpoint lexico {A} (by_ : list (A → A → comparison)) (a b : A) : comparison :=
  match by_ with
  | [] => Eq
  | c :: by_ => match c a b with Eq => lexico by_ a b | r => r end
  end.

Definition cmp_leb {A} (c : A → A → comparison) (a b : A) : bool :=
  match c a b with Gt => false | _ => true end.

(** ** pandas operations *)

Section Frames.
Context {R : Type}.

(** [len(df)] *)
Definition len (df : DataFrame R) : Z := Z.of_nat (length (rows df)).

(** Stable sorting: a row is inserted before the first row of the sorted
    rest that does not come strictly before it, so rows with equal keys
    keep their input order. Every stable sort computes this list. *)
Fixpoint insert_row (c : R → R → comparison) (x : R) (l : list R) : list R :=
  match l with
  | [] => [x]
  | y :: l' => if cmp_leb c x y then x :: l else y :: insert_row c x l'
  end.

Fixpoint stable_sort (c : R → R → comparison) (l : list R) : list R :=
  match l with
  | [] => []
  | x :: l' => insert_row c x (stable_sort c l')
  end.

(** [df.sort_values(by, ascending=..., kind='mergesort').reset_index(drop=True)] *)
Definition sort_values (by_ : list (R → R → comparison)) (df : DataFrame R)
  : DataFrame R :=
  mkDF (columns df) (stable_sort (lexico by_) (rows df)).

(** [df[mask]] for a mask computed row by row *)
Definition mask (p : R → bool) (df : DataFrame R) : DataFrame R :=
  mkDF (columns df) (filter (λ r, p r) (rows df)).

(** [df.iloc[:k]]: a Python slice; a negative [k] counts from the end. *)
Definition iloc_to (k : Z) (df : DataFrame R) : DataFrame R :=
  mkDF (columns df)
    (if 0 <=? k then take (Z.to_nat k) (rows df)
     else take (length (rows df) - Z.to_nat (- k))%nat (rows df)).

(** [df.iloc[-1]]: the last row; raises on an empty frame. *)
Definition iloc_last (df : DataFrame R) : result R :=
  match last (rows df) with
  | Some r => Ok r
  | None => IndexError
  end.
End Frames.

(** [pd.concat(frames, ignore_index=True)]: the rows of the frames one
    after the other, under the union of their columns in order of first
    appearance. *)
Definition concat_frames {R} (frames : list (DataFrame R)) : DataFrame R :=
  mkDF
    (foldl (λ acc f,
              acc ++ filter (λ c, c ∉ acc) (columns f))
           [] frames)
    (mjoin (rows <$> frames)).

(** [df[name] = ...]: a new column is appended, an existing one is
    overwritten in place. *)
Definition set_column (name : string) (cols : list string) : list string :=
  if bool_decide (name ∈ cols) then cols else cols ++ [name].

(** The columns every frame of the cascade is read through: [df['id']]
    and [df['score']]. *)
Class Row (R : Type) : Type := {
  row_id : R → string;
  row_score : R → Qc
}.

#[global] Instance candidate_row : Row Candidate :=
  {| row_id := id; row_score := score |}.

#[global] Instance dropped_row : Row DroppedItem :=
  {| row_id := λ d, id (candidate d); row_score := λ d, score (candidate d) |}.

(** [df['id']] *)
Definition col_id `{Row R} (df : DataFrame R) : list string :=
  row_id <$> rows df.

(** [set(df['id'])] *)
Definition id_set `{Row R} (df : DataFrame R) : gset string :=
  list_to_set (col_id df).

(** [series.isin(values)], at one row *)
Definition isin (values : list string) (x : string) : bool :=
  bool_decide (x ∈ values).

(** The sort keys of the source. *)
Definition by_score_desc `{Row R} (a b : R) : comparison :=
  (row_score b ?= row_score a)%Qc.

Definition by_id_asc `{Row R} (a b : R) : comparison :=
  String.compare (row_id a) (row_id b).

Definition by_margin_asc (a b : DroppedItem) : comparison :=
  (inclusion_margin a ?= inclusion_margin b)%Qc.

(** ** [src/constraints.py] *)

Record BoundaryItems : Type := mkBoundary {
  bi_threshold : Qc;
  bi_top_k : Z;
  bi_budget : Z;
  kth_score : option Qc;
  kth_item : option Candidate;
  budget_score : option Qc;
  budget_item : option Candidate
}.

Record Counts : Type := mkCounts {
  n_total : Z;
  n_after_threshold : Z;
  n_after_topk : Z;
  n_shown : Z;
  n_dropped : Z
}.

Record ResultBundle : Type := mkBundle {
  all_candidates : DataFrame Candidate;
  after_threshold : DataFrame Candidate;
  after_topk : DataFrame Candidate;
  shown : DataFrame Candidate;
  dropped : DataFrame DroppedItem;
  boundary_items : BoundaryItems;
  counts : Counts
}.

(** [compute_boundary_items], lines 26-74. [iloc[-1]] is only reached
    behind [len(...) > 0]; the embedding reads the last row as an option,
    which is [Some] there. *)
Definition compute_boundary_items
    (after_threshold after_topk shown : DataFrame Candidate)
    (threshold : Qc) (top_k budget budget_actual : Z) : BoundaryItems :=
  let is_topk_binding := top_k <? len after_threshold in
  let kth :=
    if (0 <? len after_topk) && is_topk_binding
    then last (rows after_topk) else None in
  let is_budget_binding :=
    (len shown =? budget_actual) && (budget_actual <? len after_topk) in
  let bud :=
    if (0 <? len shown) && is_budget_binding
    then last (rows shown) else None in
  {| bi_threshold := threshold;
     bi_top_k := top_k;
     bi_budget := budget;
     kth_score := score <$> kth;
     kth_item := kth;
     budget_score := score <$> bud;
     budget_item := bud |}.

(** The two orders of the source: [['score', 'id']] with
    [ascending=[False, True]], and [['inclusion_margin', 'score', 'id']]
    with [ascending=[True, False, True]]. *)
Definition canonical_order : list (Candidate → Candidate → comparison) :=
  [by_score_desc; by_id_asc].

Definition dropped_order : list (DroppedItem → DroppedItem → comparison) :=
  [by_margin_asc; by_score_desc; by_id_asc].

(** The three stages, lines 108-125. *)
Definition sort_candidates (df : DataFrame Candidate) : DataFrame Candidate :=
  sort_values canonical_order df.

Definition threshold_filter (all_candidates : DataFrame Candidate)
    (threshold : Qc) : DataFrame Candidate :=
  mask (λ r, Qcleb threshold (score r)) all_candidates.

Definition topk_filter (after_threshold : DataFrame Candidate) (top_k : Z)
  : DataFrame Candidate :=
  let k_actual := Z.min top_k (len after_threshold) in
  iloc_to k_actual after_threshold.

Definition budget_cap (after_topk : DataFrame Candidate) (budget : Z)
  : DataFrame Candidate :=
  let budget_actual := Z.min budget (len after_topk) in
  iloc_to budget_actual after_topk.

(** The three column assignments of a drop branch, lines 138-140 and
    151-153: on one row, and on the frame. *)
Definition mark_row (stage : string) (cutoff : Qc) (r : Candidate)
  : DroppedItem :=
  {| candidate := r;
     dropped_reason := "eligible but dropped by capacity";
     capacity_stage := stage;
     inclusion_margin := (cutoff - score r)%Qc |}.

Definition mark_dropped (stage : string) (cutoff : Qc)
    (df : DataFrame Candidate) : DataFrame DroppedItem :=
  mkDF
    (set_column "inclusion_margin"
       (set_column "capacity_stage"
          (set_column "dropped_reason" (columns df))))
    (mark_row stage cutoff <$> rows df).

(** Lines 133-135 and 146-148: the rows a stage removed, found by id. *)
Definition outside_topk (after_threshold after_topk : DataFrame Candidate)
  : DataFrame Candidate :=
  mask (λ r, negb (isin (col_id after_topk) (id r))) after_threshold.

Definition over_budget (after_topk shown : DataFrame Candidate)
  : DataFrame Candidate :=
  let shown_ids : gset string := id_set shown in
  mask (λ r, negb (bool_decide (id r ∈ shown_ids))) after_topk.

(** Lines 131-142: the candidates the top-K filter removed. *)
Definition topk_drops (after_threshold after_topk : DataFrame Candidate)
    (dropped_candidates : list (DataFrame DroppedItem))
  : result (list (DataFrame DroppedItem)) :=
  if len after_topk <? len after_threshold then
    kth ← iloc_last after_topk;
    mret (dropped_candidates
            ++ [mark_dropped "top_k" (score kth)
                  (outside_topk after_threshold after_topk)])
  else mret dropped_candidates.

(** Lines 144-155: the candidates the budget removed. *)
Definition budget_drops (after_topk shown : DataFrame Candidate)
    (dropped_candidates : list (DataFrame DroppedItem))
  : result (list (DataFrame DroppedItem)) :=
  if len shown <? len after_topk then
    b ← iloc_last shown;
    mret (dropped_candidates
            ++ [mark_dropped "budget" (score b) (over_budget after_topk shown)])
  else mret dropped_candidates.

(** Lines 157-168: combine and sort by margin, or the empty frame. *)
Definition combine_dropped (df : DataFrame Candidate)
    (dropped_candidates : list (DataFrame DroppedItem))
  : DataFrame DroppedItem :=
  match dropped_candidates with
  | _ :: _ =>
      sort_values dropped_order (concat_frames dropped_candidates)
  | [] =>
      mkDF (columns df ++ ["dropped_reason"; "capacity_stage"; "inclusion_margin"])
           []
  end.

(** [apply_constraints], lines 77-206. *)
Definition apply_constraints (df : DataFrame Candidate) (threshold : Qc)
    (top_k budget : Z) : result ResultBundle :=
  let all_candidates := sort_candidates df in
  let after_threshold := threshold_filter all_candidates threshold in
  let after_topk := topk_filter after_threshold top_k in
  let budget_actual := Z.min budget (len after_topk) in
  let shown := budget_cap after_topk budget in
  dropped_candidates ← topk_drops after_threshold after_topk [];
  dropped_candidates ← budget_drops after_topk shown dropped_candidates;
  let dropped := combine_dropped df dropped_candidates in
  let boundary_items :=
    compute_boundary_items after_threshold after_topk shown
      threshold top_k budget budget_actual in
  let counts :=
    {| n_total := len all_candidates;
       n_after_threshold := len after_threshold;
       n_after_topk := len after_topk;
       n_shown := len shown;
       n_dropped := len dropped |} in
  _ ← assert (bool_decide (id_set shown ∪ id_set dropped = id_set after_threshold))
        "Partition invariant violated: shown UNION dropped != after_threshold";
  _ ← assert (bool_decide (id_set shown ∩ id_set dropped = ∅))
        "Disjoint invariant violated: shown INTERSECT dropped != empty";
  _ ← assert (n_shown counts + n_dropped counts =? n_after_threshold counts)
        "Count invariant violated";
  _ ← (if 0 <? len dropped
       then assert (forallb (λ d, Qcleb 0 (inclusion_margin d)) (rows dropped))
              "Negative margins detected"
       else mret tt);
  mret {| all_candidates := all_candidates;
          after_threshold := after_threshold;
          after_topk := after_topk;
          shown := shown;
          dropped := dropped;
          boundary_items := boundary_items;
          counts := counts |}.

(** ** Orders *)

(** A three-way comparison that orders its rows: swapping the arguments
    swaps the outcome, rows that compare equal compare alike with every
    other row, and "before" is transitive. *)
Class CmpOrder {A} (c : A → A → comparison) : Prop := {
  cmp_opp a b : c b a = CompOpp (c a b);
  cmp_eq_l a b d : c a b = Eq → c a d = c b d;
  cmp_lt_trans a b d : c a b = Lt → c b d = Lt → c a d = Lt
}.

(** [cle c a b]: [a] may stand before [b] in a list sorted by [c]. *)
Definition cle {A} (c : A → A → comparison) (a b : A) : Prop :=
  cmp_leb c a b = true.

#[global] Instance cle_dec {A} (c : A → A → comparison) : RelDecision (cle c).
Proof. intros a b. unfold cle. apply _. Defined.

(** Score descending, ties broken by id ascending. *)
Definition score_desc_id_asc `{Row R} (a b : R) : Prop :=
  (row_score b < row_score a)%Qc
  ∨ (row_score a = row_score b ∧ String.leb (row_id a) (row_id b) = true).

(** Margin ascending, then score descending, then id ascending. *)
Definition margin_asc_score_desc_id_asc (a b : DroppedItem) : Prop :=
  (inclusion_margin a < inclusion_margin b)%Qc
  ∨ (inclusion_margin a = inclusion_margin b ∧ score_desc_id_asc a b).

(** Two rows of [dropped] the final sort cannot tell apart. *)
Definition same_sort_key (x y : DroppedItem) : Prop :=
  inclusion_margin x = inclusion_margin y
  ∧ row_score x = row_score y ∧ row_id x = row_id y.

(** [l] is the maximal order-preserving subsequence of [k] whose elements
    satisfy [P]. *)
Definition maximal_subsequence {A} (P : A → Prop) (l k : list A) : Prop :=
  l `sublist_of` k ∧ Forall P l ∧
  ∀ l', l' `sublist_of` k → Forall P l' → l' `sublist_of` l.

(** ** The cascade in terms of its stages *)

(** The rows one stage contributes to [dropped]: the rows behind the kept
    prefix, each marked with its distance to the last kept row. *)
Definition stage_drops (stage : string) (kept rest : list Candidate)
  : list DroppedItem :=
  from_option (λ c, mark_row stage (score c) <$> rest) [] (last kept).

(** The rows handed to the final sort of [dropped]: those the top-K filter
    removed, then those the budget removed. *)
Definition drops_before_sort (AT ATK SH : DataFrame Candidate)
  : list DroppedItem :=
  (if len ATK <? len AT
   then stage_drops "top_k" (rows ATK) (rows (outside_topk AT ATK)) else [])
  ++ (if len SH <? len ATK
      then stage_drops "budget" (rows SH) (rows (over_budget ATK SH)) else []).

(** What the bundle of a valid call contains, in terms of the stages. *)
Record cascade_of (df : DataFrame Candidate) (threshold : Qc)
    (top_k budget : Z) (r : ResultBundle) : Prop := {
  co_all : all_candidates r = sort_candidates df;
  co_threshold : after_threshold r = threshold_filter (all_candidates r) threshold;
  co_topk : after_topk r = topk_filter (after_threshold r) top_k;
  co_shown : shown r = budget_cap (after_topk r) budget;
  co_boundary :
    boundary_items r =
      compute_boundary_items (after_threshold r) (after_topk r) (shown r)
        threshold top_k budget (Z.min budget (len (after_topk r)));
  co_counts :
    counts r = {| n_total := len (all_candidates r);
                  n_after_threshold := len (after_threshold r);
                  n_after_topk := len (after_topk r);
                  n_shown := len (shown r);
                  n_dropped := len (dropped r) |}
}.

(** ** Relations between two calls *)

(** Two candidates with the same id and score, whatever their other
    attributes. *)
Definition same_key (a b : Candidate) : Prop :=
  id a = id b ∧ score a = score b.

#[global] Instance same_key_dec : RelDecision same_key.
Proof. intros a b. unfold same_key. apply _. Defined.

(** Two dropped rows that agree on id, score, reason, stage and margin. *)
Definition same_drop (d1 d2 : DroppedItem) : Prop :=
  same_key (candidate d1) (candidate d2)
  ∧ dropped_reason d1 = dropped_reason d2
  ∧ capacity_stage d1 = capacity_stage d2
  ∧ inclusion_margin d1 = inclusion_margin d2.

(** Frames whose rows are related one by one, in order. *)
Definition rows_rel {A B} (P : A → B → Prop)
    (f1 : DataFrame A) (f2 : DataFrame B) : Prop :=
  Forall2 P (rows f1) (rows f2).

(** Two bundles with the same partition: the same ids and scores in the
    same order at every stage, the same stage and margin on every dropped
    row. *)
Definition same_partition (r1 r2 : ResultBundle) : Prop :=
  rows_rel same_key (all_candidates r1) (all_candidates r2)
  ∧ rows_rel same_key (after_threshold r1) (after_threshold r2)
  ∧ rows_rel same_key (after_topk r1) (after_topk r2)
  ∧ rows_rel same_key (shown r1) (shown r2)
  ∧ rows_rel same_drop (dropped r1) (dropped r2).

(** Two results that fail alike or return related values. *)
Definition result_rel {A B} (P : A → B → Prop)
    (r1 : result A) (r2 : result B) : Prop :=
  match r1, r2 with
  | Ok a, Ok b => P a b
  | IndexError, IndexError => True
  | AssertionError m1, AssertionError m2 => m1 = m2
  | _, _ => False
  end.

(** Lists of frames whose rows, put one after the other, are related. *)
Definition concat_rel (dc1 dc2 : list (DataFrame DroppedItem)) : Prop :=
  length dc1 = length dc2
  ∧ Forall2 same_drop (rows (concat_frames dc1)) (rows (concat_frames dc2)).

(** ** The input contract *)

(** The input contract of the specification: unique ids, scores in the
    open interval (0,1), threshold in [0,1], [top_k] and [budget] at
    least 1. *)
Definition input_contract (df : DataFrame Candidate) (threshold : Qc)
    (top_k budget : Z) : Prop :=
  NoDup (col_id df)
  ∧ Forall (λ c, (0 < score c)%Qc ∧ (score c < 1)%Qc) (rows df)
  ∧ (0 ≤ threshold)%Qc ∧ (threshold ≤ 1)%Qc
  ∧ 1 ≤ top_k ∧ 1 ≤ budget.

(** A call that does not return a bundle. *)
Definition rejected {A} (r : result A) : Prop := ∀ a, r ≠ Ok a.

(** ** The literal scenario of [tests/test_constraints.py], and other
    concrete inputs *)

(** A decimal literal as a score. *)
Definition q (x : Q) : Qc := Q2Qc x.

(** A row of the test's frame: every attribute but id and score is fixed. *)
Definition test_row (i : string) (s : Q) : Candidate :=
  {| id := i; urgency := q 0.5; confidence := q 0.5; impact := q 0.5;
     cost := q 0.5; case_type := "test"; logit := q 0; score := q s |}.

Definition candidate_columns : list string :=
  ["id"; "score"; "urgency"; "confidence"; "impact"; "cost"; "logit";
   "case_type"].

Definition tie_df : DataFrame Candidate :=
  mkDF candidate_columns
    [test_row "C0003" 0.6; test_row "C0001" 0.5;
     test_row "C0002" 0.5; test_row "C0004" 0.4].

(** A bundle with nothing in it, the value of a failed call in
    [result_get]. *)
Definition empty_bundle : ResultBundle :=
  {| all_candidates := mkDF [] []; after_threshold := mkDF [] [];
     after_topk := mkDF [] []; shown := mkDF [] []; dropped := mkDF [] [];
     boundary_items := compute_boundary_items (mkDF [] []) (mkDF [] [])
                         (mkDF [] []) (q 0) 0 0 0;
     counts := mkCounts 0 0 0 0 0 |}.

Definition result_get {A} (d : A) (r : result A) : A :=
  match r with Ok a => a | _ => d end.

(** The bundle the scenario's call returns. *)
Definition tie_bundle : ResultBundle :=
  Eval vm_compute in
    result_get empty_bundle (apply_constraints tie_df (q 0.4) 3 2).

(** The scenario's population, presented in another order. *)
Definition tie_df_shuffled : DataFrame Candidate :=
  mkDF candidate_columns
    [test_row "C0004" 0.4; test_row "C0002" 0.5;
     test_row "C0003" 0.6; test_row "C0001" 0.5].

(** The scenario's population with other attribute values. *)
Definition tie_df_other_attributes : DataFrame Candidate :=
  mkDF candidate_columns
    ((λ c, {| id := id c; urgency := q 0.9; confidence := q 0.1;
              impact := q 0.7; cost := q 0.2; case_type := "borderline";
              logit := q 1.5; score := score c |}) <$> rows tie_df).

(** A population with scores outside (0,1), to be called with a threshold
    outside [0,1]. *)
Definition wild_df : DataFrame Candidate :=
  mkDF candidate_columns
    [test_row "C0001" 1.5; test_row "C0002" 0; test_row "C0003" 2.5].

(** A population with a duplicate id. *)
Definition duplicate_df : DataFrame Candidate :=
  mkDF candidate_columns [test_row "C0001" 0.5; test_row "C0001" 0.4].

(** ** [app.py]: the boundary shown next to the closest dropped row *)

(** [get_boundary_for_stage], lines 77-104. [closest] is a row of
    [dropped], [boundary] the [boundary_items] of the bundle; an f-string
    prints an [int] in decimal. *)
Definition get_boundary_for_stage (closest : DroppedItem)
    (boundary : BoundaryItems) (top_k budget : Z)
  : option Candidate * string :=
  if bool_decide (capacity_stage closest = "top_k")
     && bool_decide (kth_item boundary ≠ None)
  then (kth_item boundary, "Kth item (K=" +:+ pretty top_k +:+ ")")
  else if bool_decide (capacity_stage closest = "budget")
          && bool_decide (budget_item boundary ≠ None)
  then (budget_item boundary,
        "Budget boundary (budget=" +:+ pretty budget +:+ ")")
  else (None, "").

(** ** [src/model.py] *)

(** What a call of the scorer ends in: the scored frame, or the exception
    raised, a [KeyError] with its key or a failed [assert] with its
    message. *)
Inductive scoring (A : Type) : Type :=
| Scored (a : A)
| KeyError (key : string)
| ScoreAssertionError (msg : string).
Arguments Scored {A} _.
Arguments KeyError {A} _.
Arguments ScoreAssertionError {A} _.

#[global] Instance scoring_ret : MRet scoring := λ A, Scored.

#[global] Instance scoring_bind : MBind scoring := λ A B k r,
  match r with
  | Scored a => k a
  | KeyError key => KeyError key
  | ScoreAssertionError msg => ScoreAssertionError msg
  end.

Definition check (cond : bool) (msg : string) : scoring unit :=
  if cond then mret tt else ScoreAssertionError msg.

(** [coefs[key]] on a [dict] *)
Definition coef (coefs : gmap string Qc) (key : string) : scoring Qc :=
  match coefs !! key with
  | Some b => Scored b
  | None => KeyError key
  end.

(** [df[name]] for a numeric column, a [Series] in index order *)
Definition series (name : string) (get : Candidate → Qc)
    (df : DataFrame Candidate) : scoring (list Qc) :=
  if bool_decide (name ∈ columns df) then Scored (get <$> rows df)
  else KeyError name.

(** [scalar * Series], [scalar + Series], [Series + Series] (the two
    series share the index of one frame). *)
Definition scale (b : Qc) (s : list Qc) : list Qc := Qcmult b <$> s.
Definition shift (b : Qc) (s : list Qc) : list Qc := Qcplus b <$> s.
Definition add_series (s1 s2 : list Qc) : list Qc := zip_with Qcplus s1 s2.

Definition Qcltb (x y : Qc) : bool := negb (Qcleb y x).

(** [isna], [np.isinf] on the numbers of the embedding: a rational is
    neither NaN nor infinite, so the two checks that use them pass on every
    frame the embedding can express. A NaN or infinite feature, on which
    the source fails "NaN scores detected", has no counterpart here, and
    nothing below is stated about which of the three assertions fails. *)
Definition isna (x : Qc) : bool := false.
Definition isinf (x : Qc) : bool := false.

Definition set_logit (r : Candidate) (z : Qc) : Candidate :=
  {| id := id r; urgency := urgency r; confidence := confidence r;
     impact := impact r; cost := cost r; case_type := case_type r;
     logit := z; score := score r |}.

Definition set_score (r : Candidate) (s : Qc) : Candidate :=
  {| id := id r; urgency := urgency r; confidence := confidence r;
     impact := impact r; cost := cost r; case_type := case_type r;
     logit := logit r; score := s |}.

(** [df[name] = series] *)
Definition assign (name : string) (set : Candidate → Qc → Candidate)
    (df : DataFrame Candidate) (s : list Qc) : DataFrame Candidate :=
  mkDF (set_column name (columns df)) (zip_with set (rows df) s).

(** [MODEL_COEFS], lines 29-35. *)
Definition MODEL_COEFS : gmap string Qc :=
  {[ "intercept" := Q2Qc (-1.2); "urgency" := Q2Qc 1.5;
     "confidence" := Q2Qc 1.0; "impact" := Q2Qc 0.8;
     "cost" := Q2Qc (-0.6) ]}.

Section Scoring.
(** [scipy.special.expit], the logistic function [1 / (1 + exp(-z))], is
    not a rational function: the scorer is embedded over any function in
    its place, and what is assumed of it is stated where it is used. *)
Variable expit : Qc → Qc.

(** [score_candidates], lines 69-107. The lookups are in the order Python
    evaluates them; the sum is associated to the left as written. *)
Definition score_candidates (df : DataFrame Candidate)
    (coefs : gmap string Qc) : scoring (DataFrame Candidate) :=
  b0 ← coef coefs "intercept";
  b1 ← coef coefs "urgency";
  x1 ← series "urgency" urgency df;
  b2 ← coef coefs "confidence";
  x2 ← series "confidence" confidence df;
  b3 ← coef coefs "impact";
  x3 ← series "impact" impact df;
  b4 ← coef coefs "cost";
  x4 ← series "cost" cost df;
  let z :=
    add_series
      (add_series
         (add_series (shift b0 (scale b1 x1)) (scale b2 x2))
         (scale b3 x3))
      (scale b4 x4) in
  let df := assign "logit" set_logit df z in
  let df := assign "score" set_score df (expit <$> z) in
  _ ← check (negb (existsb isna (score <$> rows df))) "NaN scores detected";
  _ ← check (negb (existsb isinf (score <$> rows df))) "Inf scores detected";
  _ ← check (forallb (λ s, Qcltb 0 s) (score <$> rows df)
             && forallb (λ s, Qcltb s 1) (score <$> rows df))
        "Scores outside (0, 1)";
  mret df.
End Scoring.

(** The linear score of a row, and the row the scorer makes of it. *)
Definition linear_score (b0 b1 b2 b3 b4 : Qc) (r : Candidate) : Qc :=
  (b0 + b1 * urgency r + b2 * confidence r + b3 * impact r + b4 * cost r)%Qc.

Definition scored_row (expit : Qc → Qc) (b0 b1 b2 b3 b4 : Qc)
    (r : Candidate) : Candidate :=
  set_score (set_logit r (linear_score b0 b1 b2 b3 b4 r))
    (expit (linear_score b0 b1 b2 b3 b4 r)).

(** A row before scoring: the generator's columns, [logit] and [score] at
    the defaults of [src/types.py]. *)
Definition feature_row (i : string) (u c m k : Q) : Candidate :=
  {| id := i; urgency := q u; confidence := q c; impact := q m; cost := q k;
     case_type := "base"; logit := q 0; score := q 0 |}.

Definition feature_columns : list string :=
  ["id"; "urgency"; "confidence"; "impact"; "cost"; "case_type"].

Definition feature_df : DataFrame Candidate :=
  mkDF feature_columns
    [feature_row "C0000" 0.5 0.5 0.5 0.5; feature_row "C0001" 0.9 0.5 0.5 0.5;
     feature_row "C0002" 0.9 0.8 0.6 0.1; feature_row "C0003" 0.1 0.2 0.3 0.9].

(** A rational function in the place of [expit] for evaluation: monotone,
    with values strictly between 0 and 1, and 1/2 at 0. *)
Definition clamped_sigmoid (z : Qc) : Qc :=
  if Qcleb z (Q2Qc (-1)) then Q2Qc 0.25
  else if Qcleb (Q2Qc 1) z then Q2Qc 0.75
  else (Q2Qc 0.5 + Q2Qc 0.25 * z)%Qc.

(** The frame the scorer returns for [feature_df]. *)
Definition scored_get (r : scoring (DataFrame Candidate))
  : DataFrame Candidate :=
  match r with Scored df => df | _ => mkDF [] [] end.

Definition scored_df : DataFrame Candidate :=
  Eval vm_compute in
    scored_get (score_candidates clamped_sigmoid feature_df MODEL_COEFS).

(** * Properties *)

(** ** Three-way comparisons that order their rows *)

Section CmpOrderFacts.
Context {A} (c : A → A → comparison) `{!CmpOrder c}.

Lemma cmp_refl a : c a a = Eq.
Proof.
  generalize (cmp_opp a a). destruct (c a a); simpl; congruence.
Qed.

Lemma cmp_eq_sym a b : c a b = Eq → c b a = Eq.
Proof. intros H. rewrite cmp_opp, H. done. Qed.

Lemma cmp_eq_r a b d : c a b = Eq → c d a = c d b.
Proof.
  intros H. rewrite (cmp_opp a d), (cmp_opp b d). f_equal.
  by apply cmp_eq_l.
Qed.

Lemma cle_alt a b : cle c a b ↔ c a b ≠ Gt.
Proof. unfold cle, cmp_leb. destruct (c a b); naive_solver. Qed.

Lemma not_cle a b : ¬ cle c a b → c b a = Lt.
Proof.
  rewrite cle_alt, (cmp_opp (c:=c) a b).
  destruct (c a b); simpl; intros H; [by destruct H..|done].
Qed.

#[global] Instance cle_total : Total (cle c).
Proof.
  intros a b. destruct (decide (cle c a b)) as [|H]; [by left|right].
  apply not_cle in H. apply cle_alt. congruence.
Qed.

#[global] Instance cle_trans : Transitive (cle c).
Proof.
  intros a b d. rewrite !cle_alt. intros Hab Hbd.
  destruct (c a b) eqn:E1; [| |done].
  - by rewrite (cmp_eq_l a b d E1).
  - destruct (c b d) eqn:E2; [| |done].
    + rewrite <-(cmp_eq_r b d a E2), E1. done.
    + by rewrite (cmp_lt_trans a b d E1 E2).
Qed.

#[global] Instance cle_refl : Reflexive (cle c).
Proof. intros a. apply cle_alt. by rewrite cmp_refl. Qed.

Lemma cle_antisym a b : cle c a b → cle c b a → c a b = Eq.
Proof.
  rewrite !cle_alt, (cmp_opp (c:=c) a b).
  destruct (c a b); simpl; congruence.
Qed.
End CmpOrderFacts.

(** A comparison that reads its rows through a key inherits the order of
    the keys. *)
Lemma CmpOrder_key {A K} (kc : K → K → comparison) (key : A → K) :
  CmpOrder kc → CmpOrder (λ a b, kc (key a) (key b)).
Proof.
  intros [H1 H2 H3]. split; intros; eauto.
Qed.

#[global] Instance Qccompare_order : CmpOrder Qccompare.
Proof.
  split.
  - intros a b. unfold Qccompare. by rewrite Qcompare_antisym.
  - intros a b d H. apply Qceq_alt in H. by subst.
  - intros a b d H1 H2. apply Qclt_alt in H1, H2. apply Qclt_alt.
    eapply Qclt_trans; eauto.
Qed.

#[global] Instance string_compare_order : CmpOrder String.compare.
Proof.
  split.
  - intros a b. apply String.compare_antisym.
  - intros a b d H. apply String.compare_eq_iff in H. by subst.
  - intros a b d H1 H2.
    apply OrderedTypeEx.String_as_OT.cmp_lt in H1, H2.
    apply OrderedTypeEx.String_as_OT.cmp_lt.
    eapply OrderedTypeEx.String_as_OT.lt_trans; eauto.
Qed.

Lemma CmpOrder_flip {A} (c : A → A → comparison) :
  CmpOrder c → CmpOrder (flip c).
Proof.
  intros Hc. split; unfold flip.
  - intros a b. apply cmp_opp.
  - intros a b d H. apply (cmp_eq_r c). by apply (cmp_eq_sym c).
  - intros a b d H1 H2. by apply (cmp_lt_trans d b a).
Qed.

#[global] Instance by_score_desc_order `{Row R} : CmpOrder (by_score_desc (R:=R)).
Proof.
  apply (CmpOrder_key (flip Qccompare) row_score), CmpOrder_flip.
  exact Qccompare_order.
Qed.

#[global] Instance by_id_asc_order `{Row R} : CmpOrder (by_id_asc (R:=R)).
Proof. apply (CmpOrder_key String.compare row_id), string_compare_order. Qed.

#[global] Instance by_margin_asc_order : CmpOrder by_margin_asc.
Proof. apply (CmpOrder_key Qccompare inclusion_margin), Qccompare_order. Qed.

#[global] Instance lexico_nil_order {A} : CmpOrder (lexico (A:=A) []).
Proof. split; simpl; congruence. Qed.

#[global] Instance lexico_cons_order {A} (c : A → A → comparison) by_ :
  CmpOrder c → CmpOrder (lexico by_) → CmpOrder (lexico (c :: by_)).
Proof.
  intros Hc Hl. split; simpl.
  - intros a b. rewrite (cmp_opp (c:=c) a b).
    destruct (c a b); simpl; [apply cmp_opp|done..].
  - intros a b d H. destruct (c a b) eqn:E; [|done..].
    rewrite (cmp_eq_l a b d E). destruct (c b d); [|done..].
    by apply cmp_eq_l.
  - intros a b d H1 H2.
    destruct (c a b) eqn:E1; [| |done].
    + rewrite (cmp_eq_l a b d E1). destruct (c b d); [|done..].
      by eapply cmp_lt_trans.
    + destruct (c b d) eqn:E2; [| |done].
      * by rewrite <-(cmp_eq_r c b d a E2), E1.
      * by rewrite (cmp_lt_trans a b d E1 E2).
Qed.

(** ** The stable sort *)

Section StableSort.
Context {A} (c : A → A → comparison) `{!CmpOrder c}.

Lemma insert_row_perm x l : insert_row c x l ≡ₚ x :: l.
Proof.
  induction l as [|y l IH]; simpl; [done|].
  destruct (cmp_leb c x y); [done|]. rewrite IH. apply Permutation_swap.
Qed.

Lemma stable_sort_perm l : stable_sort c l ≡ₚ l.
Proof.
  induction l as [|x l IH]; simpl; [done|].
  by rewrite insert_row_perm, IH.
Qed.

Lemma length_stable_sort l : length (stable_sort c l) = length l.
Proof. by rewrite stable_sort_perm. Qed.

Lemma insert_row_sorted x l :
  Sorted (cle c) l → Sorted (cle c) (insert_row c x l).
Proof.
  induction 1 as [|y l Hl IH Hy]; simpl.
  { by repeat constructor. }
  destruct (cmp_leb c x y) eqn:E.
  { constructor; [by constructor|]. by constructor. }
  assert (cle c y x) as Hyx.
  { destruct (total (cle c) x y) as [Hxy|]; [|done].
    unfold cle in Hxy. congruence. }
  constructor; [done|].
  destruct Hy as [|z l Hz]; simpl; [by constructor|].
  destruct (cmp_leb c x z); by constructor.
Qed.

Lemma stable_sort_sorted l : Sorted (cle c) (stable_sort c l).
Proof.
  induction l; simpl; [constructor|]. by apply insert_row_sorted.
Qed.

Lemma stable_sort_strongly_sorted l :
  StronglySorted (cle c) (stable_sort c l).
Proof. apply Sorted_StronglySorted; [apply _|]. apply stable_sort_sorted. Qed.

(** Sorting does not disturb a list that is already in order. *)
Lemma insert_row_head x l :
  Forall (cle c x) l → insert_row c x l = x :: l.
Proof. destruct 1 as [|y l Hy]; simpl; [done|]. by rewrite Hy. Qed.

Lemma stable_sort_id l : StronglySorted (cle c) l → stable_sort c l = l.
Proof.
  induction 1 as [|x l Hl IH Hx]; simpl; [done|].
  rewrite IH. by apply insert_row_head.
Qed.

(** Stability: rows that compare equal leave the sort in the order in
    which they entered it. *)
Lemma insert_row_stable x a l :
  filter (λ y, c x y = Eq) (insert_row c a l)
  = filter (λ y, c x y = Eq) (a :: l).
Proof.
  induction l as [|y l IH]; simpl; [done|].
  destruct (cmp_leb c a y) eqn:E; [done|].
  rewrite filter_cons, IH, !filter_cons.
  destruct (decide (c x y = Eq)) as [Hy|]; [|done].
  destruct (decide (c x a = Eq)) as [Ha|]; [|done].
  exfalso. unfold cmp_leb in E.
  rewrite <-(cmp_eq_l x a y Ha), Hy in E. done.
Qed.

Lemma stable_sort_stable x l :
  filter (λ y, c x y = Eq) (stable_sort c l) = filter (λ y, c x y = Eq) l.
Proof.
  induction l as [|a l IH]; simpl; [done|].
  by rewrite insert_row_stable, !filter_cons, IH.
Qed.

(** Two orders of the same rows sort to the same list as soon as no two
    distinct rows compare equal. *)
Lemma stable_sort_perm_eq l1 l2 :
  (∀ x y, x ∈ l1 → y ∈ l1 → c x y = Eq → x = y) →
  l1 ≡ₚ l2 → stable_sort c l1 = stable_sort c l2.
Proof.
  intros Hinj Hp.
  apply (StronglySorted_unique_strong (cle c));
    [|apply stable_sort_strongly_sorted..|by rewrite !stable_sort_perm].
  intros x y Hx Hy Hxy Hyx. apply Hinj.
  - by rewrite stable_sort_perm in Hx.
  - by rewrite stable_sort_perm, <-Hp in Hy.
  - by apply cle_antisym.
Qed.
End StableSort.

(** The sort reads its rows through the comparison only: related inputs
    under related comparisons give related outputs. *)
Section StableSortRel.
Context {A B} (P : A → B → Prop).
Context (c : A → A → comparison) (c' : B → B → comparison).
Hypothesis c_rel : ∀ a a' b b', P a a' → P b b' → c a b = c' a' b'.

Lemma insert_row_rel x x' l l' :
  P x x' → Forall2 P l l' →
  Forall2 P (insert_row c x l) (insert_row c' x' l').
Proof.
  intros Hx. induction 1 as [|y y' l l' Hy Hl IH]; simpl.
  { by repeat constructor. }
  unfold cmp_leb. rewrite (c_rel _ _ _ _ Hx Hy).
  destruct (c' x' y'); repeat constructor; done.
Qed.

Lemma stable_sort_rel l l' :
  Forall2 P l l' → Forall2 P (stable_sort c l) (stable_sort c' l').
Proof.
  induction 1; simpl; [constructor|]. by apply insert_row_rel.
Qed.
End StableSortRel.

(** ** Lists: prefixes, their complements and their last elements *)

Section ListFacts.
Context {A : Type}.
Implicit Types l : list A.

Lemma last_take_is_Some l n :
  (1 ≤ n)%nat → l ≠ [] → is_Some (last (take n l)).
Proof.
  intros Hn Hl. destruct (last (take n l)) eqn:E; [by eexists|].
  apply last_None in E. destruct l, n; simpl in *; try done; lia.
Qed.

(** In a list in order, the last row of a prefix stands before every row
    behind the prefix. *)
Lemma StronglySorted_last_take (R : relation A) l n c x :
  StronglySorted R l → last (take n l) = Some c → x ∈ drop n l → R c x.
Proof.
  intros Hs Hc Hx. rewrite <-(take_drop n l) in Hs.
  apply (StronglySorted_app_1_elem_of R (take n l) (drop n l)); [done| |done].
  by apply last_Some_elem_of.
Qed.

Lemma StronglySorted_sublist (R : relation A) l1 l2 :
  l1 `sublist_of` l2 → StronglySorted R l2 → StronglySorted R l1.
Proof.
  induction 1 as [|x l1 l2 Hs IH|x l1 l2 Hs IH]; intros H2; [done|..].
  - apply StronglySorted_inv in H2 as [H2 Hx]. constructor; [by apply IH|].
    rewrite Forall_forall in Hx |- *. intros y Hy. apply Hx.
    by eapply sublist_subseteq.
  - apply StronglySorted_inv in H2 as [H2 _]. by apply IH.
Qed.

Lemma filter_all (P : A → Prop) `{∀ x, Decision (P x)} l :
  Forall P l → filter P l = l.
Proof.
  induction 1 as [|x l Hx Hl IH]; [done|].
  by rewrite filter_cons_True, IH.
Qed.

Lemma filter_none (P : A → Prop) `{∀ x, Decision (P x)} l :
  Forall (λ x, ¬ P x) l → filter P l = [].
Proof.
  induction 1 as [|x l Hx Hl IH]; [done|].
  by rewrite filter_cons_False.
Qed.

(** Rows with distinct keys: the rows whose key is not a key of the
    prefix are the rows behind the prefix. *)
Lemma filter_not_in_take {K} (f : A → K) (P : A → Prop)
    `{∀ x, Decision (P x)} l n :
  (∀ r, P r ↔ f r ∉ f <$> take n l) →
  NoDup (f <$> l) → filter P l = drop n l.
Proof.
  intros HP Hnd. rewrite <-(take_drop n l) at 1.
  rewrite <-(take_drop n l), fmap_app in Hnd.
  apply NoDup_app in Hnd as (_ & Hdis & _).
  rewrite filter_app, filter_none, filter_all; [done|..].
  - apply Forall_forall. intros r Hr. apply HP. intros Hin.
    apply (Hdis (f r)); [done|]. by apply list_elem_of_fmap_2.
  - apply Forall_forall. intros r Hr. rewrite HP. intros Hn. apply Hn.
    by apply list_elem_of_fmap_2.
Qed.
End ListFacts.

(** ** The frames of the cascade *)

Lemma Qcleb_le (x y : Qc) : Qcleb x y ↔ (x ≤ y)%Qc.
Proof. unfold Qcleb, Qcle. rewrite Is_true_true. apply Qle_bool_iff. Qed.

Lemma Qcle_minus_nonneg (x y : Qc) : (x ≤ y)%Qc ↔ (0 ≤ y - x)%Qc.
Proof. apply Qcle_minus_iff. Qed.

Section FrameFacts.
Context {R : Type}.
Implicit Types df : DataFrame R.

Lemma rows_iloc_to_take k df :
  ∃ n, rows (iloc_to k df) = take n (rows df).
Proof. unfold iloc_to; simpl. destruct (0 <=? k); by eexists. Qed.

(** [df.iloc[:min(k, len(df))]] for a count that is not negative: the
    first [k] rows, all of them when there are fewer. *)
Lemma rows_iloc_to_min k df :
  0 ≤ k → rows (iloc_to (Z.min k (len df)) df) = take (Z.to_nat k) (rows df).
Proof.
  intros Hk. unfold iloc_to, len; simpl.
  destruct (Z.leb_spec 0 (Z.min k (Z.of_nat (length (rows df))))); [|lia].
  destruct (Z.min_spec k (Z.of_nat (length (rows df)))) as [[? ->]|[? ->]];
    [done|].
  rewrite Nat2Z.id, !take_ge; [done|lia..].
Qed.

Lemma len_nonneg df : 0 ≤ len df.
Proof. unfold len. lia. Qed.

Lemma len_0 df : len df = 0 ↔ rows df = [].
Proof. unfold len. destruct (rows df); simpl; [done|]. split; [lia|done]. Qed.
End FrameFacts.

#[global] Instance canonical_order_cmp : CmpOrder (lexico canonical_order).
Proof. repeat apply lexico_cons_order; apply _. Qed.

#[global] Instance dropped_order_cmp : CmpOrder (lexico dropped_order).
Proof. repeat apply lexico_cons_order; apply _. Qed.

Lemma canonical_order_sorted df :
  StronglySorted (cle (lexico canonical_order)) (rows (sort_candidates df)).
Proof.
  unfold sort_candidates, sort_values; simpl.
  apply stable_sort_strongly_sorted. exact canonical_order_cmp.
Qed.

Lemma sort_candidates_perm df : rows (sort_candidates df) ≡ₚ rows df.
Proof. unfold sort_candidates, sort_values; simpl. apply stable_sort_perm. Qed.

(** Rows in canonical order have their scores in descending order. *)
Lemma canonical_le_score (a b : Candidate) :
  cle (lexico canonical_order) a b → (score b ≤ score a)%Qc.
Proof.
  unfold cle, cmp_leb, canonical_order; simpl.
  unfold by_score_desc; simpl. intros H.
  destruct (score b ?= score a)%Qc eqn:E.
  - apply Qceq_alt in E. rewrite E. apply Qcle_refl.
  - apply Qclt_alt in E. by apply Qclt_le_weak.
  - done.
Qed.

(** Rows with the same id and score occupy the same place in the
    canonical order. *)
Lemma canonical_eq_key (a b : Candidate) :
  lexico canonical_order a b = Eq ↔ score a = score b ∧ id a = id b.
Proof.
  unfold canonical_order; simpl. unfold by_score_desc, by_id_asc; simpl.
  split.
  - destruct (score b ?= score a)%Qc eqn:E; [|done..].
    apply Qceq_alt in E. destruct (String.compare (id a) (id b)) eqn:E2;
      [|done..].
    apply String.compare_eq_iff in E2. done.
  - intros [-> ->].
    by rewrite (cmp_refl Qccompare), (cmp_refl String.compare).
Qed.

Section Stages.
Context (df : DataFrame Candidate) (threshold : Qc) (top_k budget : Z).

Let AC := sort_candidates df.
Let AT := threshold_filter AC threshold.
Let ATK := topk_filter AT top_k.
Let SH := budget_cap ATK budget.

Lemma after_threshold_sublist : rows AT `sublist_of` rows AC.
Proof. apply sublist_filter. Qed.

Lemma after_topk_take : ∃ n, rows ATK = take n (rows AT).
Proof. apply rows_iloc_to_take. Qed.

Lemma shown_take : ∃ n, rows SH = take n (rows ATK).
Proof. apply rows_iloc_to_take. Qed.

Lemma after_threshold_sorted :
  StronglySorted (cle (lexico canonical_order)) (rows AT).
Proof.
  eapply StronglySorted_sublist;
    [apply after_threshold_sublist|apply canonical_order_sorted].
Qed.

Lemma after_topk_sorted :
  StronglySorted (cle (lexico canonical_order)) (rows ATK).
Proof.
  destruct after_topk_take as [n ->].
  eapply StronglySorted_sublist; [apply sublist_take|].
  apply after_threshold_sorted.
Qed.

Lemma shown_sorted :
  StronglySorted (cle (lexico canonical_order)) (rows SH).
Proof.
  destruct shown_take as [n ->].
  eapply StronglySorted_sublist; [apply sublist_take|].
  apply after_topk_sorted.
Qed.

Lemma after_topk_rows :
  0 ≤ top_k → rows ATK = take (Z.to_nat top_k) (rows AT).
Proof. apply rows_iloc_to_min. Qed.

Lemma shown_rows :
  0 ≤ budget → rows SH = take (Z.to_nat budget) (rows ATK).
Proof. apply rows_iloc_to_min. Qed.

Lemma after_threshold_nodup :
  NoDup (col_id df) → NoDup (col_id AT).
Proof.
  intros Hnd. unfold col_id in *.
  apply (sublist_NoDup _ (row_id <$> rows AC)).
  - unfold AC. by rewrite sort_candidates_perm.
  - apply fmap_sublist, after_threshold_sublist.
Qed.
End Stages.

(** ** The drop branches *)

Lemma bind_Ok {A B} (a : A) (k : A → result B) : (Ok a ≫= k) = k a.
Proof. done. Qed.

Lemma assert_true {B} c msg (k : unit → result B) :
  c = true → (assert c msg ≫= k) = k tt.
Proof. by intros ->. Qed.

Lemma iloc_last_Ok {R} (df : DataFrame R) c :
  last (rows df) = Some c → iloc_last df = Ok c.
Proof. unfold iloc_last. by intros ->. Qed.

Lemma stage_drops_elem stage kept rest d :
  d ∈ stage_drops stage kept rest ↔
  ∃ c r, last kept = Some c ∧ r ∈ rest ∧ d = mark_row stage (score c) r.
Proof.
  unfold stage_drops. destruct (last kept) as [c|]; simpl.
  - rewrite list_elem_of_fmap. split.
    + intros (r & -> & Hr). by exists c, r.
    + intros (c' & r & [= <-] & Hr & ->). by exists r.
  - split; [by intros ?%elem_of_nil|]. by intros (? & ? & ? & _).
Qed.

Lemma stage_drops_candidates stage (l : list Candidate) n :
  (1 ≤ n)%nat →
  candidate <$> stage_drops stage (take n l) (drop n l) = drop n l.
Proof.
  intros Hn. unfold stage_drops.
  destruct (decide (l = [])) as [->|Hl]; [by rewrite take_nil, drop_nil|].
  destruct (last_take_is_Some l n Hn Hl) as [c ->]; simpl.
  rewrite <-list_fmap_compose. apply list_fmap_id.
Qed.

Lemma stage_drops_nil stage kept : stage_drops stage kept [] = [].
Proof. unfold stage_drops. by destruct (last kept). Qed.

Lemma rows_concat_snoc {R} (dc : list (DataFrame R)) f :
  rows (concat_frames (dc ++ [f])) = rows (concat_frames dc) ++ rows f.
Proof.
  unfold concat_frames; simpl.
  rewrite fmap_app, join_app; simpl. by rewrite app_nil_r.
Qed.

Lemma outside_topk_rows (AT ATK : DataFrame Candidate) n :
  rows ATK = take n (rows AT) → NoDup (col_id AT) →
  rows (outside_topk AT ATK) = drop n (rows AT).
Proof.
  intros Hk Hnd. unfold outside_topk, mask; simpl.
  apply (filter_not_in_take id); [|done].
  intros r. unfold isin, col_id. rewrite Hk; simpl.
  rewrite negb_True, bool_decide_spec. done.
Qed.

Lemma over_budget_rows (ATK SH : DataFrame Candidate) n :
  rows SH = take n (rows ATK) → NoDup (col_id ATK) →
  rows (over_budget ATK SH) = drop n (rows ATK).
Proof.
  intros Hk Hnd. unfold over_budget, mask; simpl.
  apply (filter_not_in_take id); [|done].
  intros r. unfold id_set, col_id. rewrite Hk; simpl.
  rewrite negb_True, bool_decide_spec, elem_of_list_to_set. done.
Qed.

(** With a count of at least one, a stage that removed a row kept one. *)
Lemma take_shorter_last (l : list Candidate) n :
  (1 ≤ n)%nat → (length (take n l) < length l)%nat →
  is_Some (last (take n l)).
Proof.
  intros Hn Hlt. apply last_take_is_Some; [done|].
  intros ->. simpl in Hlt. lia.
Qed.

Lemma topk_drops_valid (AT : DataFrame Candidate) top_k dc :
  NoDup (col_id AT) → 1 ≤ top_k →
  ∃ dc', topk_drops AT (topk_filter AT top_k) dc = Ok dc' ∧
    rows (concat_frames dc') =
      rows (concat_frames dc)
      ++ stage_drops "top_k" (rows (topk_filter AT top_k))
           (drop (Z.to_nat top_k) (rows AT)).
Proof.
  intros Hnd Hk.
  assert (rows (topk_filter AT top_k) = take (Z.to_nat top_k) (rows AT)) as Hrows.
  { apply rows_iloc_to_min. lia. }
  unfold topk_drops, len.
  destruct (Z.ltb_spec (Z.of_nat (length (rows (topk_filter AT top_k))))
              (Z.of_nat (length (rows AT)))) as [Hlt|Hge].
  - destruct (take_shorter_last (rows AT) (Z.to_nat top_k)) as [c Hc];
      [lia|rewrite <-Hrows; lia|].
    rewrite <-Hrows in Hc. rewrite (iloc_last_Ok _ c Hc), bind_Ok.
    eexists; split; [reflexivity|].
    rewrite rows_concat_snoc. f_equal. unfold mark_dropped; cbn [rows].
    rewrite (outside_topk_rows _ _ (Z.to_nat top_k)); [|done..].
    unfold stage_drops. by rewrite Hc.
  - eexists; split; [reflexivity|].
    rewrite drop_ge, stage_drops_nil, app_nil_r; [done|].
    rewrite Hrows, length_take in Hge. lia.
Qed.

Lemma budget_drops_valid (ATK : DataFrame Candidate) budget dc :
  NoDup (col_id ATK) → 1 ≤ budget →
  ∃ dc', budget_drops ATK (budget_cap ATK budget) dc = Ok dc' ∧
    rows (concat_frames dc') =
      rows (concat_frames dc)
      ++ stage_drops "budget" (rows (budget_cap ATK budget))
           (drop (Z.to_nat budget) (rows ATK)).
Proof.
  intros Hnd Hk.
  assert (rows (budget_cap ATK budget) = take (Z.to_nat budget) (rows ATK))
    as Hrows.
  { apply rows_iloc_to_min. lia. }
  unfold budget_drops, len.
  destruct (Z.ltb_spec (Z.of_nat (length (rows (budget_cap ATK budget))))
              (Z.of_nat (length (rows ATK)))) as [Hlt|Hge].
  - destruct (take_shorter_last (rows ATK) (Z.to_nat budget)) as [c Hc];
      [lia|rewrite <-Hrows; lia|].
    rewrite <-Hrows in Hc. rewrite (iloc_last_Ok _ c Hc), bind_Ok.
    eexists; split; [reflexivity|].
    rewrite rows_concat_snoc. f_equal. unfold mark_dropped; cbn [rows].
    rewrite (over_budget_rows _ _ (Z.to_nat budget)); [|done..].
    unfold stage_drops. by rewrite Hc.
  - eexists; split; [reflexivity|].
    rewrite drop_ge, stage_drops_nil, app_nil_r; [done|].
    rewrite Hrows, length_take in Hge. lia.
Qed.

Lemma rows_combine_dropped df dc :
  rows (combine_dropped df dc)
  = stable_sort (lexico dropped_order) (rows (concat_frames dc)).
Proof. by destruct dc. Qed.

(** ** The call on a valid input *)

Section Valid.
Context (df : DataFrame Candidate) (threshold : Qc) (top_k budget : Z).
Hypothesis ids_unique : NoDup (col_id df).
Hypothesis top_k_pos : 1 ≤ top_k.
Hypothesis budget_pos : 1 ≤ budget.

Let AC := sort_candidates df.
Let AT := threshold_filter AC threshold.
Let ATK := topk_filter AT top_k.
Let SH := budget_cap ATK budget.
Let X := stage_drops "top_k" (rows ATK) (drop (Z.to_nat top_k) (rows AT)).
Let Y := stage_drops "budget" (rows SH) (drop (Z.to_nat budget) (rows ATK)).

Lemma valid_topk_rows : rows ATK = take (Z.to_nat top_k) (rows AT).
Proof. apply rows_iloc_to_min. lia. Qed.

Lemma valid_shown_rows : rows SH = take (Z.to_nat budget) (rows ATK).
Proof. apply rows_iloc_to_min. lia. Qed.

Lemma valid_threshold_nodup : NoDup (col_id AT).
Proof. by apply after_threshold_nodup. Qed.

Lemma valid_topk_nodup : NoDup (col_id ATK).
Proof.
  unfold col_id. rewrite valid_topk_rows.
  apply (sublist_NoDup _ (row_id <$> rows AT)).
  - apply valid_threshold_nodup.
  - apply fmap_sublist, sublist_take.
Qed.

Lemma valid_drop_candidates :
  candidate <$> (X ++ Y)
  = drop (Z.to_nat top_k) (rows AT) ++ drop (Z.to_nat budget) (rows ATK).
Proof.
  unfold X, Y. rewrite fmap_app, valid_shown_rows.
  rewrite stage_drops_candidates by lia.
  rewrite valid_topk_rows at 1.
  by rewrite stage_drops_candidates by lia.
Qed.

(** The rows shown and the rows dropped are, together, the rows that
    passed the threshold. *)
Lemma valid_partition_perm :
  rows SH ++ (candidate <$> (X ++ Y)) ≡ₚ rows AT.
Proof.
  rewrite valid_drop_candidates, valid_shown_rows.
  rewrite (Permutation_app_comm (drop _ (rows AT))), (assoc _), take_drop.
  by rewrite valid_topk_rows, take_drop.
Qed.

Lemma valid_partition_ids :
  col_id SH ++ (row_id <$> (X ++ Y)) ≡ₚ col_id AT.
Proof.
  unfold col_id. rewrite <-valid_partition_perm, !fmap_app.
  by rewrite <-!list_fmap_compose.
Qed.

Lemma valid_margins d :
  d ∈ X ++ Y → (0 ≤ inclusion_margin d)%Qc.
Proof.
  intros [Hd|Hd]%elem_of_app;
    apply stage_drops_elem in Hd as (c & r & Hc & Hr & ->); simpl;
    apply (proj1 (Qcle_minus_nonneg _ _)), canonical_le_score.
  - rewrite valid_topk_rows in Hc.
    eapply StronglySorted_last_take; [|done..].
    apply after_threshold_sorted.
  - rewrite valid_shown_rows in Hc.
    eapply StronglySorted_last_take; [|done..].
    apply after_topk_sorted.
Qed.

Lemma apply_constraints_valid :
  ∃ r, apply_constraints df threshold top_k budget = Ok r ∧
    cascade_of df threshold top_k budget r ∧
    rows (dropped r) = stable_sort (lexico dropped_order) (X ++ Y).
Proof.
  unfold apply_constraints. cbv zeta. fold AC AT ATK SH.
  destruct (topk_drops_valid AT top_k [] valid_threshold_nodup top_k_pos)
    as (dc1 & Hdc1 & H1).
  fold ATK in Hdc1, H1. rewrite Hdc1, bind_Ok.
  destruct (budget_drops_valid ATK budget dc1 valid_topk_nodup budget_pos)
    as (dc2 & Hdc2 & H2).
  fold SH in Hdc2, H2. rewrite Hdc2, bind_Ok.
  assert (rows (combine_dropped df dc2)
          = stable_sort (lexico dropped_order) (X ++ Y)) as HD.
  { rewrite rows_combine_dropped, H2, H1. done. }
  assert (col_id SH ++ col_id (combine_dropped df dc2) ≡ₚ col_id AT) as Hp.
  { unfold col_id at 2. rewrite HD, stable_sort_perm by apply _.
    apply valid_partition_ids. }
  rewrite assert_true.
  2:{ apply bool_decide_eq_true. unfold id_set.
      by rewrite <-list_to_set_app_L, Hp. }
  rewrite assert_true.
  2:{ apply bool_decide_eq_true.
      pose proof valid_threshold_nodup as Hnd. rewrite <-Hp in Hnd.
      apply NoDup_app in Hnd as (_ & Hdis & _).
      unfold id_set. apply set_eq. intros x.
      rewrite elem_of_intersection, !elem_of_list_to_set.
      split; [|by intros ?%elem_of_empty]. intros [??]. by destruct (Hdis x). }
  rewrite assert_true.
  2:{ cbn [n_shown n_dropped n_after_threshold]. apply Z.eqb_eq.
      unfold len. apply Permutation_length in Hp.
      unfold col_id in Hp. rewrite length_app, !length_fmap in Hp. lia. }
  assert ((if 0 <? len (combine_dropped df dc2)
           then assert (forallb (λ d, Qcleb 0 (inclusion_margin d))
                          (rows (combine_dropped df dc2)))
                  "Negative margins detected"
           else mret tt) = Ok tt) as ->.
  { destruct (0 <? _); [|done]. unfold assert.
    assert (forallb (λ d, Qcleb 0 (inclusion_margin d))
              (rows (combine_dropped df dc2)) = true) as ->; [|done].
    apply Is_true_true, forallb_True, Forall_forall. intros d Hd.
    apply Qcleb_le, valid_margins.
    by rewrite HD, stable_sort_perm in Hd by apply _. }
  rewrite bind_Ok. eexists; split; [done|]. split; [|done].
  by split.
Qed.
End Valid.

(** ** What a returned bundle contains, on any input *)

Lemma bind_inv {A B} (m : result A) (k : A → result B) r :
  (m ≫= k) = Ok r → ∃ a, m = Ok a ∧ k a = Ok r.
Proof. destruct m; [by eauto|done..]. Qed.

Lemma assert_inv {B} c msg (k : unit → result B) r :
  (assert c msg ≫= k) = Ok r → c = true ∧ k tt = Ok r.
Proof. by destruct c. Qed.

Lemma apply_constraints_Ok df threshold top_k budget r :
  apply_constraints df threshold top_k budget = Ok r →
  cascade_of df threshold top_k budget r ∧
  ∃ dc1 dc2,
    topk_drops (after_threshold r) (after_topk r) [] = Ok dc1 ∧
    budget_drops (after_topk r) (shown r) dc1 = Ok dc2 ∧
    dropped r = combine_dropped df dc2 ∧
    id_set (shown r) ∪ id_set (dropped r) = id_set (after_threshold r) ∧
    id_set (shown r) ∩ id_set (dropped r) = ∅ ∧
    len (shown r) + len (dropped r) = len (after_threshold r) ∧
    Forall (λ d, (0 ≤ inclusion_margin d)%Qc) (rows (dropped r)).
Proof.
  unfold apply_constraints. cbv zeta. intros H.
  apply bind_inv in H as (dc1 & Hdc1 & H).
  apply bind_inv in H as (dc2 & Hdc2 & H).
  apply assert_inv in H as (Hu%bool_decide_eq_true & H).
  apply assert_inv in H as (Hi%bool_decide_eq_true & H).
  apply assert_inv in H as (Hn%Z.eqb_eq & H).
  apply bind_inv in H as ([] & Hm & H).
  injection H as <-. cbn [n_shown n_dropped n_after_threshold] in Hn.
  split; [by split|]. exists dc1, dc2. cbn -[combine_dropped].
  repeat split; try done.
  destruct (Z.ltb_spec 0 (len (combine_dropped df dc2))) as [Hlen|Hlen].
  - unfold assert in Hm.
    destruct (forallb _ _) eqn:E in Hm; [|done].
    apply Is_true_true, forallb_True in E.
    eapply Forall_impl; [exact E|]. intros d Hd. by apply Qcleb_le.
  - assert (rows (combine_dropped df dc2) = []) as ->; [|constructor].
    apply len_0. pose proof (len_nonneg (combine_dropped df dc2)). lia.
Qed.

(** ** The partition *)

(** C1. For a population with unique ids and [top_k ≥ 1], [budget ≥ 1]
    (whatever the threshold), the call returns a bundle, and in it the ids
    of [shown] and of [dropped] together are the ids of [after_threshold],
    no id is in both, and [|shown| + |dropped| = |after_threshold|], on the
    frames and in the [counts] the bundle reports. *)
Theorem partition_invariants df threshold top_k budget :
  NoDup (col_id df) → 1 ≤ top_k → 1 ≤ budget →
  ∃ r, apply_constraints df threshold top_k budget = Ok r ∧
    id_set (shown r) ∪ id_set (dropped r) = id_set (after_threshold r) ∧
    id_set (shown r) ∩ id_set (dropped r) = ∅ ∧
    len (shown r) + len (dropped r) = len (after_threshold r) ∧
    n_shown (counts r) + n_dropped (counts r) = n_after_threshold (counts r).
Proof.
  intros Hnd Hk Hb.
  destruct (apply_constraints_valid df threshold top_k budget Hnd Hk Hb)
    as (r & Hr & _).
  exists r. split; [done|].
  apply apply_constraints_Ok in Hr as (Hc & _ & _ & _ & _ & _ & Hu & Hi & Hn & _).
  repeat split; try done. by rewrite (co_counts _ _ _ _ _ Hc).
Qed.

Lemma partition_invariants_witness :
  ∃ r, apply_constraints tie_df (q 0.4) 3 2 = Ok r ∧
    id_set (shown r) ∪ id_set (dropped r) = id_set (after_threshold r) ∧
    id_set (shown r) ∩ id_set (dropped r) = ∅ ∧
    len (shown r) + len (dropped r) = len (after_threshold r) ∧
    n_shown (counts r) + n_dropped (counts r) = n_after_threshold (counts r).
Proof.
  apply (partition_invariants tie_df (q 0.4) 3 2); [|lia|lia].
  apply (bool_decide_unpack _). vm_compute. exact I.
Defined.

(** ** The orders and the subsequence of the specification *)

Lemma cle_score_id `{Row R} (a b : R) :
  cle (lexico [by_score_desc; by_id_asc]) a b ↔ score_desc_id_asc a b.
Proof.
  unfold cle, cmp_leb, score_desc_id_asc, String.leb; simpl.
  unfold by_score_desc, by_id_asc.
  destruct (row_score b ?= row_score a)%Qc eqn:E.
  - apply Qceq_alt in E. rewrite E. split.
    + intros Hc. right. split; [done|].
      by destruct (String.compare (row_id a) (row_id b)).
    + intros [Hlt|[_ Hle]]; [by apply Qclt_not_eq in Hlt|].
      by destruct (String.compare (row_id a) (row_id b)).
  - apply Qclt_alt in E. split; [by left|done].
  - apply Qcgt_alt in E. split; [done|].
    intros [Hlt|[Heq _]].
    + destruct (Qclt_not_le _ _ E). by apply Qclt_le_weak.
    + rewrite Heq in E. by apply Qclt_not_eq in E.
Qed.

Lemma cle_canonical (a b : Candidate) :
  cle (lexico canonical_order) a b ↔ score_desc_id_asc a b.
Proof. apply cle_score_id. Qed.

Lemma cle_dropped (a b : DroppedItem) :
  cle (lexico dropped_order) a b ↔ margin_asc_score_desc_id_asc a b.
Proof.
  unfold margin_asc_score_desc_id_asc. rewrite <-cle_score_id.
  unfold cle, cmp_leb, dropped_order.
  change (lexico (by_margin_asc :: ?l) a b)
    with (match by_margin_asc a b with Eq => lexico l a b | o => o end).
  unfold by_margin_asc.
  destruct (inclusion_margin a ?= inclusion_margin b)%Qc eqn:E.
  - apply Qceq_alt in E. rewrite E. split; [by right|].
    intros [Hlt|[_ Hle]]; [by apply Qclt_not_eq in Hlt|done].
  - apply Qclt_alt in E. split; [by left|done].
  - apply Qcgt_alt in E. split; [done|].
    intros [Hlt|[Heq _]].
    + destruct (Qclt_not_le _ _ E). by apply Qclt_le_weak.
    + rewrite Heq in E. by apply Qclt_not_eq in E.
Qed.

Lemma StronglySorted_iff {A} (R1 R2 : relation A) l :
  (∀ a b, R1 a b ↔ R2 a b) → StronglySorted R1 l → StronglySorted R2 l.
Proof.
  intros HR. induction 1 as [|x l Hl IH Hx]; constructor; [done|].
  eapply Forall_impl; [done|]. intros y. apply HR.
Qed.

Lemma filter_maximal {A} (P : A → Prop) `{∀ x, Decision (P x)} (k : list A) :
  maximal_subsequence P (filter P k) k.
Proof.
  split; [apply sublist_filter|]. split.
  { apply Forall_forall. by intros x [? _]%list_elem_of_filter. }
  intros l' Hs. induction Hs as [|x l1 l2 Hs IH|x l1 l2 Hs IH]; intros HP.
  - done.
  - apply Forall_cons in HP as [Hx HP].
    rewrite filter_cons_True by done. by apply sublist_skip, IH.
  - rewrite filter_cons. destruct (decide (P x)); [|by apply IH].
    by apply sublist_cons, IH.
Qed.

(** ** The stages *)

Lemma iloc_to_min_len {R} k (df : DataFrame R) :
  0 ≤ k →
  rows (iloc_to (Z.min k (len df)) df)
    = take (Z.to_nat (Z.min k (len df))) (rows df)
  ∧ len (iloc_to (Z.min k (len df)) df) = Z.min k (len df).
Proof.
  intros Hk. pose proof (len_nonneg df) as Hl.
  unfold iloc_to, len in *; simpl.
  destruct (Z.leb_spec 0 (Z.min k (Z.of_nat (length (rows df))))); [|lia].
  split; [done|]. rewrite length_take. lia.
Qed.

(** C2. With [top_k ≥ 1] and [budget ≥ 1], on every population: the call
    returns when the ids are unique, whatever the threshold and however
    large [top_k] and [budget]; and the stages of a returned bundle are
    [all_candidates], the population in canonical order; [after_threshold],
    the maximal order-preserving subsequence of it with
    [score ≥ threshold]; [after_topk], the first
    [min(top_k, |after_threshold|)] rows of [after_threshold]; [shown], the
    first [min(budget, |after_topk|)] rows of [after_topk]. *)
Theorem cascade_stages df threshold top_k budget :
  1 ≤ top_k → 1 ≤ budget →
  (NoDup (col_id df) →
   ∃ r, apply_constraints df threshold top_k budget = Ok r)
  ∧ ∀ r, apply_constraints df threshold top_k budget = Ok r →
    rows (all_candidates r) ≡ₚ rows df ∧
    StronglySorted score_desc_id_asc (rows (all_candidates r)) ∧
    rows (after_threshold r)
      = filter (λ c, (threshold ≤ score c)%Qc) (rows (all_candidates r)) ∧
    maximal_subsequence (λ c, (threshold ≤ score c)%Qc)
      (rows (after_threshold r)) (rows (all_candidates r)) ∧
    rows (after_topk r)
      = take (Z.to_nat (Z.min top_k (len (after_threshold r))))
          (rows (after_threshold r)) ∧
    len (after_topk r) = Z.min top_k (len (after_threshold r)) ∧
    rows (shown r)
      = take (Z.to_nat (Z.min budget (len (after_topk r))))
          (rows (after_topk r)) ∧
    len (shown r) = Z.min budget (len (after_topk r)).
Proof.
  intros Hk Hb. split.
  { intros Hnd.
    destruct (apply_constraints_valid df threshold top_k budget Hnd Hk Hb)
      as (r & Hr & _).
    by exists r. }
  intros r Hr.
  pose proof (apply_constraints_Ok _ _ _ _ _ Hr) as ([Hall Hth Htk Hsh _ _] & _).
  assert (rows (after_threshold r)
          = filter (λ c, (threshold ≤ score c)%Qc) (rows (all_candidates r)))
    as Hf.
  { rewrite Hth. unfold threshold_filter, mask; simpl.
    apply list_filter_iff. intros c. apply Qcleb_le. }
  split; [rewrite Hall; apply sort_candidates_perm|].
  split.
  { rewrite Hall. eapply StronglySorted_iff; [apply cle_canonical|].
    apply canonical_order_sorted. }
  split; [done|].
  split; [rewrite Hf; apply filter_maximal|].
  rewrite Hsh, Htk. unfold topk_filter, budget_cap.
  destruct (iloc_to_min_len top_k (after_threshold r)) as [? ?]; [lia|].
  destruct (iloc_to_min_len budget
              (iloc_to (top_k `min` len (after_threshold r)) (after_threshold r)))
    as [? ?]; [lia|].
  done.
Qed.

Lemma cascade_stages_witness :
  apply_constraints tie_df (q 0.4) 3 2 = Ok tie_bundle ∧
  rows (all_candidates tie_bundle) ≡ₚ rows tie_df ∧
  StronglySorted score_desc_id_asc (rows (all_candidates tie_bundle)) ∧
  rows (after_threshold tie_bundle)
    = filter (λ c, (q 0.4 ≤ score c)%Qc) (rows (all_candidates tie_bundle)) ∧
  maximal_subsequence (λ c, (q 0.4 ≤ score c)%Qc)
    (rows (after_threshold tie_bundle)) (rows (all_candidates tie_bundle)) ∧
  rows (after_topk tie_bundle)
    = take (Z.to_nat (Z.min 3 (len (after_threshold tie_bundle))))
        (rows (after_threshold tie_bundle)) ∧
  len (after_topk tie_bundle) = Z.min 3 (len (after_threshold tie_bundle)) ∧
  rows (shown tie_bundle)
    = take (Z.to_nat (Z.min 2 (len (after_topk tie_bundle))))
        (rows (after_topk tie_bundle)) ∧
  len (shown tie_bundle) = Z.min 2 (len (after_topk tie_bundle)).
Proof.
  split; [vm_compute; reflexivity|].
  destruct (cascade_stages tie_df (q 0.4) 3 2) as [_ H]; [lia|lia|].
  apply H. vm_compute; reflexivity.
Defined.

(** ** The margins *)

(** C4. On a valid input, every row of [dropped] has a margin that is not
    negative and that is the cutoff score minus the row's score, the
    cutoff being the score of the last row of [after_topk] for a row of
    stage [top_k], and of the last row of [shown] for a row of stage
    [budget]. *)
Theorem dropped_margins df threshold top_k budget :
  NoDup (col_id df) → 1 ≤ top_k → 1 ≤ budget →
  ∃ r, apply_constraints df threshold top_k budget = Ok r ∧
    ∀ d, d ∈ rows (dropped r) →
      (0 ≤ inclusion_margin d)%Qc ∧
      ((capacity_stage d = "top_k" ∧
        ∃ c, last (rows (after_topk r)) = Some c ∧
             inclusion_margin d = (score c - row_score d)%Qc)
       ∨ (capacity_stage d = "budget" ∧
        ∃ c, last (rows (shown r)) = Some c ∧
             inclusion_margin d = (score c - row_score d)%Qc)).
Proof.
  intros Hnd Hk Hb.
  destruct (apply_constraints_valid df threshold top_k budget Hnd Hk Hb)
    as (r & Hr & [Hall Hth Htk Hsh _ _] & HD).
  exists r. split; [done|]. intros d Hd.
  apply apply_constraints_Ok in Hr as (_ & _ & _ & _ & _ & _ & _ & _ & _ & Hm).
  split; [by eapply Forall_forall in Hm|].
  rewrite HD, stable_sort_perm in Hd by apply _.
  rewrite Hsh, Htk, Hth, Hall.
  apply elem_of_app in Hd as [Hd|Hd];
    apply stage_drops_elem in Hd as (c & x & Hc & Hx & ->); [left|right];
    (split; [done|]); by exists c.
Qed.

Lemma dropped_margins_witness :
  ∃ r, apply_constraints tie_df (q 0.4) 3 2 = Ok r ∧
    ∀ d, d ∈ rows (dropped r) →
      (0 ≤ inclusion_margin d)%Qc ∧
      ((capacity_stage d = "top_k" ∧
        ∃ c, last (rows (after_topk r)) = Some c ∧
             inclusion_margin d = (score c - row_score d)%Qc)
       ∨ (capacity_stage d = "budget" ∧
        ∃ c, last (rows (shown r)) = Some c ∧
             inclusion_margin d = (score c - row_score d)%Qc)).
Proof.
  apply (dropped_margins tie_df (q 0.4) 3 2); [|lia|lia].
  apply (bool_decide_unpack _). vm_compute. exact I.
Defined.

(** ** The literal scenario *)

(** C3. The literal scenario of [test_tie_breaking_stability]: ids and
    scores C0003:0.6, C0001:0.5, C0002:0.5, C0004:0.4 with
    [threshold=0.4, top_k=3, budget=2]. *)
Theorem tie_breaking_scenario :
  ∃ r, apply_constraints tie_df (q 0.4) 3 2 = Ok r ∧
    col_id (all_candidates r) = ["C0003"; "C0001"; "C0002"; "C0004"] ∧
    col_id (after_threshold r) = ["C0003"; "C0001"; "C0002"; "C0004"] ∧
    col_id (after_topk r) = ["C0003"; "C0001"; "C0002"] ∧
    col_id (shown r) = ["C0003"; "C0001"] ∧
    ∃ d1 d2, rows (dropped r) = [d1; d2] ∧
      row_id d1 = "C0002" ∧ capacity_stage d1 = "budget" ∧
      inclusion_margin d1 = q 0 ∧
      row_id d2 = "C0004" ∧ capacity_stage d2 = "top_k" ∧
      inclusion_margin d2 = q 0.1.
Proof.
  eexists. split; [vm_compute; reflexivity|].
  repeat (split; [vm_compute; reflexivity|]).
  do 2 eexists. split; [reflexivity|].
  repeat split; try (vm_compute; reflexivity);
    apply Qc_is_canon; vm_compute; reflexivity.
Qed.

(** ** The drop branches on any input *)

Lemma iloc_last_inv {R} (df : DataFrame R) c :
  iloc_last df = Ok c → last (rows df) = Some c.
Proof. unfold iloc_last. destruct (last (rows df)); naive_solver. Qed.

Lemma topk_drops_Ok AT ATK dc dc' :
  topk_drops AT ATK dc = Ok dc' →
  (len ATK < len AT ∧
   ∃ c, last (rows ATK) = Some c ∧
     dc' = dc ++ [mark_dropped "top_k" (score c) (outside_topk AT ATK)])
  ∨ (len AT ≤ len ATK ∧ dc' = dc).
Proof.
  unfold topk_drops. destruct (Z.ltb_spec (len ATK) (len AT)) as [Hlt|Hge].
  - intros (c & Hc%iloc_last_inv & [= <-])%bind_inv. left. eauto.
  - intros [= <-]. by right.
Qed.

Lemma budget_drops_Ok ATK SH dc dc' :
  budget_drops ATK SH dc = Ok dc' →
  (len SH < len ATK ∧
   ∃ c, last (rows SH) = Some c ∧
     dc' = dc ++ [mark_dropped "budget" (score c) (over_budget ATK SH)])
  ∨ (len ATK ≤ len SH ∧ dc' = dc).
Proof.
  unfold budget_drops. destruct (Z.ltb_spec (len SH) (len ATK)) as [Hlt|Hge].
  - intros (c & Hc%iloc_last_inv & [= <-])%bind_inv. left. eauto.
  - intros [= <-]. by right.
Qed.

Lemma mark_dropped_elem stage cutoff df d :
  d ∈ rows (mark_dropped stage cutoff df) →
  capacity_stage d = stage ∧
  dropped_reason d = "eligible but dropped by capacity" ∧
  inclusion_margin d = (cutoff - row_score d)%Qc ∧
  candidate d ∈ rows df.
Proof.
  unfold mark_dropped; simpl. intros (r & -> & Hr)%list_elem_of_fmap. done.
Qed.

(** Where a row of [dropped] comes from: the branch named by its stage
    ran, and the row's margin was taken from the last row the stage
    kept. *)
Lemma dropped_row_origin df threshold top_k budget r d :
  apply_constraints df threshold top_k budget = Ok r →
  d ∈ rows (dropped r) →
  dropped_reason d = "eligible but dropped by capacity" ∧
  ((capacity_stage d = "top_k" ∧
    len (after_topk r) < len (after_threshold r) ∧
    candidate d ∈ rows (outside_topk (after_threshold r) (after_topk r)) ∧
    ∃ c, last (rows (after_topk r)) = Some c ∧
         inclusion_margin d = (score c - row_score d)%Qc)
   ∨ (capacity_stage d = "budget" ∧
    len (shown r) < len (after_topk r) ∧
    candidate d ∈ rows (over_budget (after_topk r) (shown r)) ∧
    ∃ c, last (rows (shown r)) = Some c ∧
         inclusion_margin d = (score c - row_score d)%Qc)).
Proof.
  intros (_ & dc1 & dc2 & H1 & H2 & -> & _)%apply_constraints_Ok.
  rewrite rows_combine_dropped, stable_sort_perm by apply _.
  apply topk_drops_Ok in H1 as [(Hlt1 & c1 & Hc1 & ->)|[Hge1 ->]];
    apply budget_drops_Ok in H2 as [(Hlt2 & c2 & Hc2 & ->)|[Hge2 ->]];
    rewrite ?rows_concat_snoc; intros Hd;
    repeat (apply elem_of_app in Hd as [Hd|Hd]);
    try (by apply elem_of_nil in Hd);
    apply mark_dropped_elem in Hd as (Hs & Hr & Hm & Hc);
    (split; [done|]);
    first [ left; split; [exact Hs|]; by eauto 10
          | right; split; [exact Hs|]; by eauto 10 ].
Qed.

(** ** The boundary items *)

Lemma len_pos_rows {R} (df : DataFrame R) : 0 < len df ↔ rows df ≠ [].
Proof. unfold len. destruct (rows df); simpl; split; (done || lia). Qed.

Lemma kth_boundary AT ATK SH threshold top_k budget budget_actual :
  kth_item (compute_boundary_items AT ATK SH threshold top_k budget budget_actual)
  = (if decide (top_k < len AT ∧ rows ATK ≠ []) then last (rows ATK) else None).
Proof.
  unfold compute_boundary_items; simpl.
  destruct (Z.ltb_spec 0 (len ATK)) as [H1|H1];
    destruct (Z.ltb_spec top_k (len AT)) as [H2|H2]; simpl;
    case_decide as Hd; try done.
  - destruct Hd. split; [done|]. by apply len_pos_rows.
  - destruct Hd as [? ?]. lia.
  - destruct Hd as [_ ?%len_pos_rows]. lia.
  - destruct Hd as [? ?]. lia.
Qed.

Lemma budget_boundary AT ATK threshold top_k budget :
  0 ≤ budget →
  let budget_actual := Z.min budget (len ATK) in
  let SH := budget_cap ATK budget in
  budget_item (compute_boundary_items AT ATK SH threshold top_k budget budget_actual)
  = (if decide (budget_actual < len ATK ∧ rows SH ≠ [])
     then last (rows SH) else None).
Proof.
  intros Hb budget_actual SH.
  destruct (iloc_to_min_len budget ATK Hb) as [_ Hlen].
  fold budget_actual in Hlen. change (len SH = budget_actual) in Hlen.
  clearbody SH budget_actual.
  unfold compute_boundary_items; simpl. rewrite Hlen, Z.eqb_refl; simpl.
  destruct (Z.ltb_spec 0 budget_actual) as [H1|H1];
    destruct (Z.ltb_spec budget_actual (len ATK)) as [H2|H2]; simpl;
    case_decide as Hd; try done.
  - destruct Hd. split; [done|]. apply len_pos_rows. lia.
  - destruct Hd as [? ?]. lia.
  - destruct Hd as [_ ?%len_pos_rows]. lia.
  - destruct Hd as [? ?]. lia.
Qed.

Lemma topk_filter_binding AT top_k :
  len (topk_filter AT top_k) < len AT → top_k < len AT.
Proof.
  intros Hlt. destruct (Z.lt_ge_cases top_k (len AT)) as [|Hge]; [done|].
  exfalso. revert Hlt. unfold topk_filter.
  rewrite Z.min_r by done.
  destruct (iloc_to_min_len (len AT) AT (len_nonneg AT)) as [_ Hl].
  rewrite Z.min_id in Hl. lia.
Qed.

(** C5. In a bundle returned for a budget that is not negative:
    [kth_item] is present exactly when [top_k < |after_threshold|] and
    [after_topk] is not empty, and is then the last row of [after_topk],
    with [kth_score] its score, the cutoff of every margin of stage
    [top_k]; [budget_item] is present exactly when
    [min(budget, |after_topk|) < |after_topk|] and [shown] is not empty,
    and is then the last row of [shown], with [budget_score] its score,
    the cutoff of every margin of stage [budget]. *)
Theorem boundary_items_present df threshold top_k budget r :
  0 ≤ budget →
  apply_constraints df threshold top_k budget = Ok r →
  (is_Some (kth_item (boundary_items r)) ↔
     top_k < len (after_threshold r) ∧ rows (after_topk r) ≠ []) ∧
  (∀ c, kth_item (boundary_items r) = Some c →
     last (rows (after_topk r)) = Some c ∧
     kth_score (boundary_items r) = Some (score c)) ∧
  (∀ d, d ∈ rows (dropped r) → capacity_stage d = "top_k" →
     ∃ c, kth_item (boundary_items r) = Some c ∧
          inclusion_margin d = (score c - row_score d)%Qc) ∧
  (is_Some (budget_item (boundary_items r)) ↔
     Z.min budget (len (after_topk r)) < len (after_topk r) ∧
     rows (shown r) ≠ []) ∧
  (∀ c, budget_item (boundary_items r) = Some c →
     last (rows (shown r)) = Some c ∧
     budget_score (boundary_items r) = Some (score c)) ∧
  (∀ d, d ∈ rows (dropped r) → capacity_stage d = "budget" →
     ∃ c, budget_item (boundary_items r) = Some c ∧
          inclusion_margin d = (score c - row_score d)%Qc).
Proof.
  intros Hb Hr.
  pose proof (apply_constraints_Ok _ _ _ _ _ Hr) as ([_ _ Htk Hsh Hbi _] & _).
  assert (kth_item (boundary_items r)
          = if decide (top_k < len (after_threshold r) ∧ rows (after_topk r) ≠ [])
            then last (rows (after_topk r)) else None) as Hkth.
  { rewrite Hbi. apply kth_boundary. }
  assert (budget_item (boundary_items r)
          = if decide (Z.min budget (len (after_topk r)) < len (after_topk r)
                       ∧ rows (shown r) ≠ [])
            then last (rows (shown r)) else None) as Hbud.
  { rewrite Hbi, Hsh. by apply budget_boundary. }
  assert (kth_score (boundary_items r) = score <$> kth_item (boundary_items r))
    as Hks by (by rewrite Hbi).
  assert (budget_score (boundary_items r)
          = score <$> budget_item (boundary_items r))
    as Hbs by (by rewrite Hbi).
  split; [|split; [|split; [|split; [|split]]]].
  - rewrite Hkth.
    destruct (decide (top_k < len (after_threshold r)
                      ∧ rows (after_topk r) ≠ [])) as [Hd|Hd].
    + split; [done|]. intros _. apply last_is_Some, Hd.
    + split; [by intros ?%is_Some_None|done].
  - intros c. rewrite Hks, Hkth.
    destruct (decide (top_k < len (after_threshold r)
                      ∧ rows (after_topk r) ≠ [])); [|done].
    by intros ->.
  - intros d Hd Hs.
    destruct (dropped_row_origin _ _ _ _ _ _ Hr Hd)
      as (_ & [(_ & Hlt & _ & c & Hc & Hm)|(Hs' & _)]); [|congruence].
    exists c. split; [|done]. rewrite Hkth, decide_True; [done|].
    split; [apply topk_filter_binding; by rewrite <-Htk|].
    apply last_is_Some. by rewrite Hc.
  - rewrite Hbud.
    destruct (decide (Z.min budget (len (after_topk r)) < len (after_topk r)
                      ∧ rows (shown r) ≠ [])) as [Hd|Hd].
    + split; [done|]. intros _. apply last_is_Some, Hd.
    + split; [by intros ?%is_Some_None|done].
  - intros c. rewrite Hbs, Hbud.
    destruct (decide (Z.min budget (len (after_topk r)) < len (after_topk r)
                      ∧ rows (shown r) ≠ [])); [|done].
    by intros ->.
  - intros d Hd Hs.
    destruct (dropped_row_origin _ _ _ _ _ _ Hr Hd)
      as (_ & [(Hs' & _)|(_ & Hlt & _ & c & Hc & Hm)]); [congruence|].
    exists c. split; [|done]. rewrite Hbud, decide_True; [done|].
    split; [|apply last_is_Some; by rewrite Hc].
    destruct (iloc_to_min_len budget (after_topk r) Hb) as [_ Hl].
    rewrite Hsh in Hlt. unfold budget_cap in Hlt. lia.
Qed.

Lemma boundary_items_present_witness :
  0 ≤ 2 ∧ apply_constraints tie_df (q 0.4) 3 2 = Ok tie_bundle ∧
  (is_Some (kth_item (boundary_items tie_bundle)) ↔
     3 < len (after_threshold tie_bundle) ∧ rows (after_topk tie_bundle) ≠ []) ∧
  (∀ c, kth_item (boundary_items tie_bundle) = Some c →
     last (rows (after_topk tie_bundle)) = Some c ∧
     kth_score (boundary_items tie_bundle) = Some (score c)) ∧
  (∀ d, d ∈ rows (dropped tie_bundle) → capacity_stage d = "top_k" →
     ∃ c, kth_item (boundary_items tie_bundle) = Some c ∧
          inclusion_margin d = (score c - row_score d)%Qc) ∧
  (is_Some (budget_item (boundary_items tie_bundle)) ↔
     Z.min 2 (len (after_topk tie_bundle)) < len (after_topk tie_bundle) ∧
     rows (shown tie_bundle) ≠ []) ∧
  (∀ c, budget_item (boundary_items tie_bundle) = Some c →
     last (rows (shown tie_bundle)) = Some c ∧
     budget_score (boundary_items tie_bundle) = Some (score c)) ∧
  (∀ d, d ∈ rows (dropped tie_bundle) → capacity_stage d = "budget" →
     ∃ c, budget_item (boundary_items tie_bundle) = Some c ∧
          inclusion_margin d = (score c - row_score d)%Qc).
Proof.
  split; [lia|]. split; [vm_compute; reflexivity|].
  apply (boundary_items_present tie_df (q 0.4) 3 2 tie_bundle);
    [lia|vm_compute; reflexivity].
Defined.

(** ** The order and the schema of [dropped] *)

Lemma dropped_order_eq (x y : DroppedItem) :
  lexico dropped_order x y = Eq ↔ same_sort_key x y.
Proof.
  unfold same_sort_key, dropped_order; cbn [lexico].
  unfold by_margin_asc, by_score_desc, by_id_asc. split.
  - destruct (inclusion_margin x ?= inclusion_margin y)%Qc eqn:E1; [|done..].
    destruct (row_score y ?= row_score x)%Qc eqn:E2; [|done..].
    destruct (String.compare (row_id x) (row_id y)) eqn:E3; [|done..].
    apply Qceq_alt in E1, E2. apply String.compare_eq_iff in E3. done.
  - intros (E1 & E2 & E3). rewrite E1, E2, E3.
    by rewrite !(cmp_refl Qccompare), (cmp_refl String.compare).
Qed.

Lemma topk_drops_rows AT ATK dc dc' :
  topk_drops AT ATK dc = Ok dc' →
  rows (concat_frames dc')
  = rows (concat_frames dc)
    ++ (if len ATK <? len AT
        then stage_drops "top_k" (rows ATK) (rows (outside_topk AT ATK))
        else []).
Proof.
  unfold topk_drops. destruct (len ATK <? len AT).
  - intros (c & Hc%iloc_last_inv & [= <-])%bind_inv.
    rewrite rows_concat_snoc. unfold stage_drops. by rewrite Hc.
  - intros [= <-]. by rewrite app_nil_r.
Qed.

Lemma budget_drops_rows ATK SH dc dc' :
  budget_drops ATK SH dc = Ok dc' →
  rows (concat_frames dc')
  = rows (concat_frames dc)
    ++ (if len SH <? len ATK
        then stage_drops "budget" (rows SH) (rows (over_budget ATK SH))
        else []).
Proof.
  unfold budget_drops. destruct (len SH <? len ATK).
  - intros (c & Hc%iloc_last_inv & [= <-])%bind_inv.
    rewrite rows_concat_snoc. unfold stage_drops. by rewrite Hc.
  - intros [= <-]. by rewrite app_nil_r.
Qed.

Lemma dropped_rows_sorted_concat df threshold top_k budget r :
  apply_constraints df threshold top_k budget = Ok r →
  rows (dropped r)
  = stable_sort (lexico dropped_order)
      (drops_before_sort (after_threshold r) (after_topk r) (shown r)).
Proof.
  intros (_ & dc1 & dc2 & H1 & H2 & -> & _)%apply_constraints_Ok.
  rewrite rows_combine_dropped. f_equal. unfold drops_before_sort.
  by rewrite (budget_drops_rows _ _ _ _ H2), (topk_drops_rows _ _ _ _ H1).
Qed.

Lemma dropped_empty_schema df threshold top_k budget r :
  apply_constraints df threshold top_k budget = Ok r →
  len (after_threshold r) ≤ len (after_topk r) →
  len (after_topk r) ≤ len (shown r) →
  dropped r
  = mkDF (columns df ++ ["dropped_reason"; "capacity_stage"; "inclusion_margin"])
         [].
Proof.
  intros (_ & dc1 & dc2 & H1 & H2 & -> & _)%apply_constraints_Ok Hk Hb.
  apply topk_drops_Ok in H1 as [(Hlt1 & _)|[_ ->]]; [lia|].
  apply budget_drops_Ok in H2 as [(Hlt2 & _)|[_ ->]]; [lia|]. done.
Qed.

(** C7. In a returned bundle: [shown] is in order of score descending,
    ties by id ascending; [dropped] is in order of margin ascending, then
    score descending, then id ascending, and is the stable sort of the
    top_k-stage drops followed by the budget-stage drops, so rows with the
    same key keep the order they have there; when neither stage is binding
    ([top_k ≥ |after_threshold|] and [min(budget, |after_topk|) ≥
    |after_topk|]) [dropped] has no rows and has the columns of the input
    followed by [dropped_reason], [capacity_stage], [inclusion_margin]. *)
Theorem bundle_orderings df threshold top_k budget r :
  apply_constraints df threshold top_k budget = Ok r →
  StronglySorted score_desc_id_asc (rows (shown r)) ∧
  StronglySorted margin_asc_score_desc_id_asc (rows (dropped r)) ∧
  rows (dropped r)
    ≡ₚ drops_before_sort (after_threshold r) (after_topk r) (shown r) ∧
  (∀ x, filter (same_sort_key x) (rows (dropped r))
        = filter (same_sort_key x)
            (drops_before_sort (after_threshold r) (after_topk r) (shown r))) ∧
  (¬ top_k < len (after_threshold r) →
   ¬ Z.min budget (len (after_topk r)) < len (after_topk r) →
   rows (dropped r) = [] ∧
   columns (dropped r)
     = columns df ++ ["dropped_reason"; "capacity_stage"; "inclusion_margin"]).
Proof.
  intros Hr.
  pose proof (apply_constraints_Ok _ _ _ _ _ Hr) as ([Hall Hth Htk Hsh _ _] & _).
  pose proof (dropped_rows_sorted_concat _ _ _ _ _ Hr) as HD.
  split; [|split; [|split; [|split]]].
  - rewrite Hsh, Htk, Hth, Hall.
    eapply StronglySorted_iff; [apply cle_canonical|]. apply shown_sorted.
  - rewrite HD. eapply StronglySorted_iff; [apply cle_dropped|].
    apply stable_sort_strongly_sorted, _.
  - rewrite HD. apply stable_sort_perm.
  - intros x.
    trans (filter (λ y, lexico dropped_order x y = Eq) (rows (dropped r))).
    { apply list_filter_iff. intros y. symmetry. apply dropped_order_eq. }
    rewrite HD, stable_sort_stable by apply _.
    apply list_filter_iff. intros y. apply dropped_order_eq.
  - intros Hk Hb.
    rewrite (dropped_empty_schema _ _ _ _ _ Hr); [done|..].
    + rewrite Htk. unfold topk_filter.
      rewrite Z.min_r by lia.
      destruct (iloc_to_min_len (len (after_threshold r)) (after_threshold r)
                  (len_nonneg _)) as [_ Hl].
      rewrite Z.min_id in Hl. lia.
    + rewrite Hsh. unfold budget_cap.
      assert (Z.min budget (len (after_topk r)) = len (after_topk r)) as -> by lia.
      destruct (iloc_to_min_len (len (after_topk r)) (after_topk r)
                  (len_nonneg _)) as [_ Hl].
      rewrite Z.min_id in Hl. lia.
Qed.

Lemma bundle_orderings_witness :
  apply_constraints tie_df (q 0.4) 3 2 = Ok tie_bundle ∧
  StronglySorted score_desc_id_asc (rows (shown tie_bundle)) ∧
  StronglySorted margin_asc_score_desc_id_asc (rows (dropped tie_bundle)) ∧
  rows (dropped tie_bundle)
    ≡ₚ drops_before_sort (after_threshold tie_bundle) (after_topk tie_bundle)
         (shown tie_bundle) ∧
  (∀ x, filter (same_sort_key x) (rows (dropped tie_bundle))
        = filter (same_sort_key x)
            (drops_before_sort (after_threshold tie_bundle)
               (after_topk tie_bundle) (shown tie_bundle))) ∧
  (¬ 3 < len (after_threshold tie_bundle) →
   ¬ Z.min 2 (len (after_topk tie_bundle)) < len (after_topk tie_bundle) →
   rows (dropped tie_bundle) = [] ∧
   columns (dropped tie_bundle)
     = columns tie_df
       ++ ["dropped_reason"; "capacity_stage"; "inclusion_margin"]).
Proof.
  split; [vm_compute; reflexivity|].
  apply (bundle_orderings tie_df (q 0.4) 3 2 tie_bundle).
  vm_compute; reflexivity.
Defined.

(** ** Independence of the input order *)

Lemma NoDup_fmap_eq {A K} (f : A → K) (l : list A) x y :
  NoDup (f <$> l) → x ∈ l → y ∈ l → f x = f y → x = y.
Proof.
  induction l as [|a l IH]; simpl; [by intros _ ?%elem_of_nil|].
  rewrite NoDup_cons. intros [Ha Hnd] Hx Hy Hf.
  apply elem_of_cons in Hx as [->|Hx]; apply elem_of_cons in Hy as [->|Hy].
  - done.
  - destruct Ha. rewrite Hf. by apply list_elem_of_fmap_2.
  - destruct Ha. rewrite <-Hf. by apply list_elem_of_fmap_2.
  - by apply IH.
Qed.

Lemma sort_candidates_perm_eq df1 df2 :
  columns df1 = columns df2 → rows df1 ≡ₚ rows df2 → NoDup (col_id df1) →
  sort_candidates df1 = sort_candidates df2.
Proof.
  intros Hc Hp Hnd. unfold sort_candidates, sort_values. rewrite Hc. f_equal.
  apply stable_sort_perm_eq; [apply _| |done].
  intros x y Hx Hy [_ Hid]%canonical_eq_key.
  by apply (NoDup_fmap_eq id (rows df1)).
Qed.

Lemma combine_dropped_columns df1 df2 dc :
  columns df1 = columns df2 → combine_dropped df1 dc = combine_dropped df2 dc.
Proof. intros Hc. unfold combine_dropped. by rewrite Hc. Qed.

(** C8. The call is a function of its arguments, and of the population
    only as a set of rows: two frames with the same columns and the same
    rows in any order, ids unique, give the same result (the same bundle,
    or the same failure). Two calls with identical arguments are the case
    of the same order. *)
Theorem order_independence df1 df2 threshold top_k budget :
  columns df1 = columns df2 → rows df1 ≡ₚ rows df2 → NoDup (col_id df1) →
  apply_constraints df1 threshold top_k budget
  = apply_constraints df2 threshold top_k budget.
Proof.
  intros Hc Hp Hnd. unfold apply_constraints.
  rewrite (sort_candidates_perm_eq df1 df2 Hc Hp Hnd).
  cbv zeta.
  destruct (topk_drops _ _ []) as [dc1| |]; [|done..]. rewrite !bind_Ok.
  destruct (budget_drops _ _ dc1) as [dc2| |]; [|done..]. rewrite !bind_Ok.
  by rewrite (combine_dropped_columns df1 df2 dc2 Hc).
Qed.

Lemma order_independence_witness :
  apply_constraints tie_df (q 0.4) 3 2
  = apply_constraints tie_df_shuffled (q 0.4) 3 2.
Proof.
  apply (order_independence tie_df tie_df_shuffled (q 0.4) 3 2).
  - reflexivity.
  - apply (bool_decide_unpack _). vm_compute. exact I.
  - apply (bool_decide_unpack _). vm_compute. exact I.
Defined.

(** ** The cutoff lookups *)

Lemma iloc_to_min_nonempty {R} k (df : DataFrame R) :
  1 ≤ k → len (iloc_to (Z.min k (len df)) df) < len df →
  rows (iloc_to (Z.min k (len df)) df) ≠ [].
Proof.
  intros Hk Hlt. destruct (iloc_to_min_len k df) as [_ Hl]; [lia|].
  apply len_pos_rows. lia.
Qed.

(** C9. With [top_k ≥ 1] and [budget ≥ 1]: when the top_k-drop branch
    runs, [after_topk] is not empty; when the budget-drop branch runs,
    [shown] is not empty; both branches return, and the call does not
    raise an index error. *)
Theorem cutoff_lookups_safe df threshold top_k budget :
  1 ≤ top_k → 1 ≤ budget →
  let after_threshold := threshold_filter (sort_candidates df) threshold in
  let after_topk := topk_filter after_threshold top_k in
  let shown := budget_cap after_topk budget in
  (len after_topk < len after_threshold → rows after_topk ≠ []) ∧
  (len shown < len after_topk → rows shown ≠ []) ∧
  (∃ dc1 dc2, topk_drops after_threshold after_topk [] = Ok dc1 ∧
              budget_drops after_topk shown dc1 = Ok dc2) ∧
  apply_constraints df threshold top_k budget ≠ IndexError.
Proof.
  intros Hk Hb AT ATK SH.
  assert (len ATK < len AT → rows ATK ≠ []) as H1.
  { by apply iloc_to_min_nonempty. }
  assert (len SH < len ATK → rows SH ≠ []) as H2.
  { by apply iloc_to_min_nonempty. }
  assert (∃ dc1, topk_drops AT ATK [] = Ok dc1) as [dc1 Hdc1].
  { unfold topk_drops. destruct (Z.ltb_spec (len ATK) (len AT)); [|by eexists].
    destruct (last (rows ATK)) as [c|] eqn:Hc.
    - rewrite (iloc_last_Ok _ c Hc). by eexists.
    - apply last_None in Hc. by destruct H1. }
  assert (∃ dc2, budget_drops ATK SH dc1 = Ok dc2) as [dc2 Hdc2].
  { unfold budget_drops. destruct (Z.ltb_spec (len SH) (len ATK)); [|by eexists].
    destruct (last (rows SH)) as [c|] eqn:Hc.
    - rewrite (iloc_last_Ok _ c Hc). by eexists.
    - apply last_None in Hc. by destruct H2. }
  split; [done|]. split; [done|]. split; [by eauto|].
  unfold apply_constraints. cbv zeta. fold AT ATK SH.
  rewrite Hdc1, bind_Ok, Hdc2, bind_Ok. unfold assert.
  repeat match goal with
  | |- context [if ?c then _ else _] => destruct c; try done
  end.
Qed.

Lemma cutoff_lookups_safe_witness :
  let after_threshold := threshold_filter (sort_candidates tie_df) (q 0.4) in
  let after_topk := topk_filter after_threshold 3 in
  let shown := budget_cap after_topk 2 in
  (len after_topk < len after_threshold → rows after_topk ≠ []) ∧
  (len shown < len after_topk → rows shown ≠ []) ∧
  (∃ dc1 dc2, topk_drops after_threshold after_topk [] = Ok dc1 ∧
              budget_drops after_topk shown dc1 = Ok dc2) ∧
  apply_constraints tie_df (q 0.4) 3 2 ≠ IndexError.
Proof. apply (cutoff_lookups_safe tie_df (q 0.4) 3 2); lia. Defined.

(** ** What the partition depends on *)

Lemma result_rel_bind {A A' B B'} (P : A → A' → Prop) (Q : B → B' → Prop)
    m1 m2 (k1 : A → result B) (k2 : A' → result B') :
  result_rel P m1 m2 →
  (∀ a a', P a a' → result_rel Q (k1 a) (k2 a')) →
  result_rel Q (m1 ≫= k1) (m2 ≫= k2).
Proof. destruct m1, m2; simpl; try done. intros HP HQ. by apply HQ. Qed.

Lemma result_rel_assert {B B'} (Q : B → B' → Prop) c1 c2 msg
    (k1 : unit → result B) (k2 : unit → result B') :
  c1 = c2 → result_rel Q (k1 tt) (k2 tt) →
  result_rel Q (assert c1 msg ≫= k1) (assert c2 msg ≫= k2).
Proof. intros <-. by destruct c1. Qed.

Lemma rows_rel_len {A B} (P : A → B → Prop) f1 f2 :
  rows_rel P f1 f2 → len f1 = len f2.
Proof. intros H%Forall2_length. unfold len. by rewrite H. Qed.

Lemma same_key_ids (l1 l2 : list Candidate) :
  Forall2 same_key l1 l2 → id <$> l1 = id <$> l2.
Proof. induction 1 as [|a b l1 l2 [Hid _]]; simpl; [done|]. by f_equal. Qed.

Lemma same_drop_ids (l1 l2 : list DroppedItem) :
  Forall2 same_drop l1 l2 → row_id <$> l1 = row_id <$> l2.
Proof.
  induction 1 as [|a b l1 l2 [[Hid _] _]]; simpl; [done|]. by f_equal.
Qed.

Lemma same_drop_margins (l1 l2 : list DroppedItem) :
  Forall2 same_drop l1 l2 → inclusion_margin <$> l1 = inclusion_margin <$> l2.
Proof.
  induction 1 as [|a b l1 l2 (_ & _ & _ & Hm)]; simpl; [done|]. by f_equal.
Qed.

Lemma same_key_col_id f1 f2 : rows_rel same_key f1 f2 → col_id f1 = col_id f2.
Proof. apply same_key_ids. Qed.

Lemma same_drop_col_id f1 f2 : rows_rel same_drop f1 f2 → col_id f1 = col_id f2.
Proof. apply same_drop_ids. Qed.

Lemma canonical_order_rel a a' b b' :
  same_key a a' → same_key b b' →
  lexico canonical_order a b = lexico canonical_order a' b'.
Proof.
  intros [Hi1 Hs1] [Hi2 Hs2]. unfold canonical_order; cbn [lexico].
  unfold by_score_desc, by_id_asc; simpl. by rewrite Hi1, Hs1, Hi2, Hs2.
Qed.

Lemma dropped_order_rel a a' b b' :
  same_drop a a' → same_drop b b' →
  lexico dropped_order a b = lexico dropped_order a' b'.
Proof.
  intros ([Hi1 Hs1] & _ & _ & Hm1) ([Hi2 Hs2] & _ & _ & Hm2).
  unfold dropped_order; cbn [lexico].
  unfold by_margin_asc, by_score_desc, by_id_asc; simpl.
  by rewrite Hi1, Hs1, Hi2, Hs2, Hm1, Hm2.
Qed.

Lemma sort_candidates_rel df1 df2 :
  rows_rel same_key df1 df2 →
  rows_rel same_key (sort_candidates df1) (sort_candidates df2).
Proof. apply stable_sort_rel, canonical_order_rel. Qed.

Lemma threshold_filter_rel f1 f2 threshold :
  rows_rel same_key f1 f2 →
  rows_rel same_key (threshold_filter f1 threshold) (threshold_filter f2 threshold).
Proof.
  apply Forall2_filter. intros x y [_ Hs]. by rewrite Hs.
Qed.

Lemma iloc_to_rel {A B} (P : A → B → Prop) k f1 f2 :
  rows_rel P f1 f2 → rows_rel P (iloc_to k f1) (iloc_to k f2).
Proof.
  intros H. unfold rows_rel, iloc_to; simpl.
  rewrite (Forall2_length _ _ _ H). destruct (0 <=? k); by apply Forall2_take.
Qed.

Lemma topk_filter_rel f1 f2 top_k :
  rows_rel same_key f1 f2 →
  rows_rel same_key (topk_filter f1 top_k) (topk_filter f2 top_k).
Proof.
  intros H. unfold topk_filter. rewrite (rows_rel_len _ _ _ H).
  by apply iloc_to_rel.
Qed.

Lemma budget_cap_rel f1 f2 budget :
  rows_rel same_key f1 f2 →
  rows_rel same_key (budget_cap f1 budget) (budget_cap f2 budget).
Proof.
  intros H. unfold budget_cap. rewrite (rows_rel_len _ _ _ H).
  by apply iloc_to_rel.
Qed.

Lemma outside_topk_rel AT1 AT2 ATK1 ATK2 :
  rows_rel same_key AT1 AT2 → rows_rel same_key ATK1 ATK2 →
  rows_rel same_key (outside_topk AT1 ATK1) (outside_topk AT2 ATK2).
Proof.
  intros HAT HATK. unfold outside_topk.
  rewrite (same_key_col_id _ _ HATK).
  apply Forall2_filter; [|done]. intros x y [Hi _]. by rewrite Hi.
Qed.

Lemma over_budget_rel ATK1 ATK2 SH1 SH2 :
  rows_rel same_key ATK1 ATK2 → rows_rel same_key SH1 SH2 →
  rows_rel same_key (over_budget ATK1 SH1) (over_budget ATK2 SH2).
Proof.
  intros HATK HSH. unfold over_budget, id_set.
  rewrite (same_key_col_id _ _ HSH).
  apply Forall2_filter; [|done]. intros x y [Hi _]. by rewrite Hi.
Qed.

Lemma mark_dropped_rel stage c1 c2 f1 f2 :
  c1 = c2 → rows_rel same_key f1 f2 →
  rows_rel same_drop (mark_dropped stage c1 f1) (mark_dropped stage c2 f2).
Proof.
  intros <- H. unfold rows_rel, mark_dropped; simpl.
  apply Forall2_fmap. eapply Forall2_impl; [exact H|].
  intros x y [Hi Hs]. unfold same_drop, same_key; simpl. by rewrite Hs.
Qed.

Lemma iloc_last_rel f1 f2 :
  rows_rel same_key f1 f2 →
  result_rel same_key (iloc_last f1) (iloc_last f2).
Proof.
  intros H%Forall2_last. unfold iloc_last. by destruct H.
Qed.

Lemma concat_rel_snoc dc1 dc2 f1 f2 :
  concat_rel dc1 dc2 → rows_rel same_drop f1 f2 →
  concat_rel (dc1 ++ [f1]) (dc2 ++ [f2]).
Proof.
  intros [Hl H] Hf. split.
  - rewrite !length_app, Hl. done.
  - rewrite !rows_concat_snoc. by apply Forall2_app.
Qed.

Lemma topk_drops_rel AT1 AT2 ATK1 ATK2 dc1 dc2 :
  rows_rel same_key AT1 AT2 → rows_rel same_key ATK1 ATK2 →
  concat_rel dc1 dc2 →
  result_rel concat_rel (topk_drops AT1 ATK1 dc1) (topk_drops AT2 ATK2 dc2).
Proof.
  intros HAT HATK Hdc. unfold topk_drops.
  rewrite (rows_rel_len _ _ _ HAT), (rows_rel_len _ _ _ HATK).
  destruct (len ATK2 <? len AT2); [|done].
  eapply result_rel_bind; [by apply iloc_last_rel|].
  intros c c' [_ Hs]. apply concat_rel_snoc; [done|].
  apply mark_dropped_rel; [done|]. by apply outside_topk_rel.
Qed.

Lemma budget_drops_rel ATK1 ATK2 SH1 SH2 dc1 dc2 :
  rows_rel same_key ATK1 ATK2 → rows_rel same_key SH1 SH2 →
  concat_rel dc1 dc2 →
  result_rel concat_rel (budget_drops ATK1 SH1 dc1) (budget_drops ATK2 SH2 dc2).
Proof.
  intros HATK HSH Hdc. unfold budget_drops.
  rewrite (rows_rel_len _ _ _ HATK), (rows_rel_len _ _ _ HSH).
  destruct (len SH2 <? len ATK2); [|done].
  eapply result_rel_bind; [by apply iloc_last_rel|].
  intros c c' [_ Hs]. apply concat_rel_snoc; [done|].
  apply mark_dropped_rel; [done|]. by apply over_budget_rel.
Qed.

Lemma combine_dropped_rel df1 df2 dc1 dc2 :
  concat_rel dc1 dc2 →
  rows_rel same_drop (combine_dropped df1 dc1) (combine_dropped df2 dc2).
Proof.
  intros [_ H]. unfold rows_rel. rewrite !rows_combine_dropped.
  by apply stable_sort_rel; [apply dropped_order_rel|].
Qed.

Lemma apply_constraints_rel df1 df2 threshold top_k budget :
  rows_rel same_key df1 df2 →
  result_rel same_partition
    (apply_constraints df1 threshold top_k budget)
    (apply_constraints df2 threshold top_k budget).
Proof.
  intros Hdf. unfold apply_constraints. cbv zeta.
  pose proof (sort_candidates_rel _ _ Hdf) as HAC.
  pose proof (threshold_filter_rel _ _ threshold HAC) as HAT.
  pose proof (topk_filter_rel _ _ top_k HAT) as HATK.
  pose proof (budget_cap_rel _ _ budget HATK) as HSH.
  eapply result_rel_bind; [by apply topk_drops_rel|].
  intros dc1 dc1' Hdc1.
  eapply result_rel_bind; [by apply budget_drops_rel|].
  intros dc2 dc2' Hdc2.
  pose proof (combine_dropped_rel df1 df2 _ _ Hdc2) as HD.
  unfold id_set.
  rewrite (same_key_col_id _ _ HSH), (same_key_col_id _ _ HAT),
    (same_drop_col_id _ _ HD).
  apply result_rel_assert; [done|].
  apply result_rel_assert; [done|].
  cbn [n_shown n_dropped n_after_threshold].
  rewrite (rows_rel_len _ _ _ HSH), (rows_rel_len _ _ _ HAT),
    (rows_rel_len _ _ _ HD).
  apply result_rel_assert; [done|].
  eapply (result_rel_bind eq).
  - destruct (0 <? len (combine_dropped df2 dc2')); [|done].
    assert (forallb (λ d, Qcleb 0 (inclusion_margin d))
              (rows (combine_dropped df1 dc2))
            = forallb (λ d, Qcleb 0 (inclusion_margin d))
                (rows (combine_dropped df2 dc2'))) as ->.
    { clear -HD. unfold rows_rel in HD.
      induction HD as [|a b l1 l2 (_ & _ & _ & Hm) _ IH]; simpl; [done|].
      by rewrite Hm, IH. }
    by destruct (forallb _ _).
  - intros _ _ _. by repeat split.
Qed.

(** C10. Two populations that agree, row by row, on id and score give,
    with the same parameters, the same failure or bundles with the same
    partition: the same ids and scores in the same order in
    [all_candidates], [after_threshold], [after_topk] and [shown], and in
    [dropped] the same ids, scores, reasons, stages and margins in the same
    order; the other attributes play no part. They are carried through:
    the rows of every stage are rows of the input, and every dropped row
    is such a row with the three columns added. *)
Theorem partition_reads_id_and_score df1 df2 threshold top_k budget :
  Forall2 same_key (rows df1) (rows df2) →
  result_rel same_partition
    (apply_constraints df1 threshold top_k budget)
    (apply_constraints df2 threshold top_k budget)
  ∧ ∀ r, apply_constraints df1 threshold top_k budget = Ok r →
      rows (all_candidates r) ≡ₚ rows df1
      ∧ rows (after_threshold r) `sublist_of` rows (all_candidates r)
      ∧ rows (after_topk r) `sublist_of` rows (after_threshold r)
      ∧ rows (shown r) `sublist_of` rows (after_topk r)
      ∧ ∀ d, d ∈ rows (dropped r) → candidate d ∈ rows (after_threshold r).
Proof.
  intros Hdf. split; [by apply apply_constraints_rel|].
  intros r Hr.
  pose proof (apply_constraints_Ok _ _ _ _ _ Hr) as ([Hall Hth Htk Hsh _ _] & _).
  assert (rows (after_topk r) `sublist_of` rows (after_threshold r)) as H1.
  { rewrite Htk. destruct (rows_iloc_to_take
      (Z.min top_k (len (after_threshold r))) (after_threshold r)) as [n Hn].
    unfold topk_filter. rewrite Hn. apply sublist_take. }
  assert (rows (shown r) `sublist_of` rows (after_topk r)) as H2.
  { rewrite Hsh. destruct (rows_iloc_to_take
      (Z.min budget (len (after_topk r))) (after_topk r)) as [n Hn].
    unfold budget_cap. rewrite Hn. apply sublist_take. }
  split; [rewrite Hall; apply sort_candidates_perm|].
  split; [rewrite Hth; apply sublist_filter|].
  split; [done|]. split; [done|].
  intros d Hd.
  destruct (dropped_row_origin _ _ _ _ _ _ Hr Hd)
    as (_ & [(_ & _ & Hc & _)|(_ & _ & Hc & _)]).
  - unfold outside_topk, mask in Hc; simpl in Hc.
    by apply list_elem_of_filter in Hc as [_ ?].
  - unfold over_budget, mask in Hc; simpl in Hc.
    apply list_elem_of_filter in Hc as [_ Hc].
    by eapply sublist_subseteq.
Qed.

Lemma partition_reads_id_and_score_witness :
  result_rel same_partition
    (apply_constraints tie_df (q 0.4) 3 2)
    (apply_constraints tie_df_other_attributes (q 0.4) 3 2)
  ∧ ∀ r, apply_constraints tie_df (q 0.4) 3 2 = Ok r →
      rows (all_candidates r) ≡ₚ rows tie_df
      ∧ rows (after_threshold r) `sublist_of` rows (all_candidates r)
      ∧ rows (after_topk r) `sublist_of` rows (after_threshold r)
      ∧ rows (shown r) `sublist_of` rows (after_topk r)
      ∧ ∀ d, d ∈ rows (dropped r) → candidate d ∈ rows (after_threshold r).
Proof.
  apply (partition_reads_id_and_score tie_df tie_df_other_attributes (q 0.4) 3 2).
  apply (bool_decide_unpack _). vm_compute. exact I.
Defined.

(** ** Inputs outside the contract *)

Lemma wild_df_outside_contract : ¬ input_contract wild_df (q 2) 3 2.
Proof.
  intros (_ & _ & _ & Hle & _). vm_compute in Hle. by apply Hle.
Qed.

(** The call returns on inputs that break each clause of the contract. *)
Example wild_scores_and_threshold_accepted :
  ∃ r, apply_constraints wild_df (q 2) 3 2 = Ok r
       ∧ col_id (shown r) = ["C0003"] ∧ col_id (dropped r) = [].
Proof. eexists. split; [vm_compute; reflexivity|]. by vm_compute. Qed.

Example duplicate_ids_accepted :
  ∃ r, apply_constraints duplicate_df (q 0.4) 5 5 = Ok r
       ∧ col_id (shown r) = ["C0001"; "C0001"].
Proof. eexists. split; [vm_compute; reflexivity|]. by vm_compute. Qed.

Example duplicate_ids_assertion :
  apply_constraints duplicate_df (q 0.4) 1 1
  = AssertionError "Count invariant violated".
Proof. vm_compute. reflexivity. Qed.

Example negative_top_k_accepted :
  ∃ r, apply_constraints tie_df (q 0.4) (-1) 2 = Ok r
       ∧ col_id (after_topk r) = ["C0003"; "C0001"; "C0002"].
Proof. eexists. split; [vm_compute; reflexivity|]. by vm_compute. Qed.

Example zero_top_k_index_error :
  apply_constraints tie_df (q 0.4) 0 2 = IndexError.
Proof. vm_compute. reflexivity. Qed.

Example zero_top_k_empty_population_accepted :
  ∃ r, apply_constraints (mkDF candidate_columns []) (q 0.4) 0 0 = Ok r.
Proof. eexists. vm_compute. reflexivity. Qed.

(** ** Calls that the slices leave whole *)

Lemma iloc_to_all {R} k (df : DataFrame R) :
  len df ≤ k → iloc_to (Z.min k (len df)) df = df.
Proof.
  intros Hk. rewrite Z.min_r by done. destruct df as [cols rs].
  unfold iloc_to, len; simpl.
  destruct (Z.leb_spec 0 (Z.of_nat (length rs))); [|lia].
  by rewrite Nat2Z.id, take_ge.
Qed.

Lemma len_threshold_filter_sorted df threshold :
  len (threshold_filter (sort_candidates df) threshold)
  = len (threshold_filter df threshold).
Proof.
  unfold len, threshold_filter, mask; cbn [rows].
  by rewrite sort_candidates_perm.
Qed.

(** When neither slice removes a row, every check of the call passes,
    whatever the ids are. *)
Lemma apply_constraints_uncut df threshold top_k budget :
  let AT := threshold_filter (sort_candidates df) threshold in
  topk_filter AT top_k = AT → budget_cap AT budget = AT →
  ∃ r, apply_constraints df threshold top_k budget = Ok r
    ∧ all_candidates r = sort_candidates df
    ∧ after_threshold r = AT ∧ after_topk r = AT ∧ shown r = AT
    ∧ dropped r
      = mkDF (columns df
                ++ ["dropped_reason"; "capacity_stage"; "inclusion_margin"]) []
    ∧ n_dropped (counts r) = 0.
Proof.
  intros AT Hk Hb. unfold apply_constraints. cbv zeta. fold AT.
  rewrite Hk, Hb. unfold topk_drops, budget_drops.
  rewrite Z.ltb_irrefl, bind_Ok, bind_Ok. cbn [combine_dropped].
  rewrite assert_true; [|apply bool_decide_eq_true, union_empty_r_L].
  rewrite assert_true; [|apply bool_decide_eq_true, intersection_empty_r_L].
  rewrite assert_true;
    [|apply Z.eqb_eq; cbn [n_shown n_dropped n_after_threshold];
      unfold len; cbn [rows length]; lia].
  eexists. split; [reflexivity|]. by cbn.
Qed.

Lemma iloc_to_nil {R} k (df : DataFrame R) :
  rows df = [] → iloc_to k df = df.
Proof.
  destruct df as [cols rs]; simpl. intros ->. unfold iloc_to; simpl.
  by destruct (0 <=? k); [rewrite take_nil|].
Qed.

Lemma iloc_last_nil {R} (df : DataFrame R) :
  rows df = [] → iloc_last df = IndexError.
Proof. unfold iloc_last. by intros ->. Qed.

(** What the call can fail with: an index error needs a limit below 1,
    and a failed assertion is one of the four checks of lines 186-196. *)
Lemma apply_constraints_failures df threshold top_k budget :
  (apply_constraints df threshold top_k budget = IndexError →
   top_k < 1 ∨ budget < 1)
  ∧ ∀ msg, apply_constraints df threshold top_k budget = AssertionError msg →
      msg ∈ ["Partition invariant violated: shown UNION dropped != after_threshold";
             "Disjoint invariant violated: shown INTERSECT dropped != empty";
             "Count invariant violated";
             "Negative margins detected"].
Proof.
  unfold apply_constraints. cbv zeta.
  set (AT := threshold_filter (sort_candidates df) threshold).
  set (ATK := topk_filter AT top_k). set (SH := budget_cap ATK budget).
  assert ((∃ dc1, topk_drops AT ATK [] = Ok dc1)
          ∨ (topk_drops AT ATK [] = IndexError ∧ top_k < 1)) as [[dc1 ->]|[-> Hk]].
  { unfold topk_drops.
    destruct (Z.ltb_spec (len ATK) (len AT)) as [Hlt|Hge]; [|by eauto].
    destruct (last (rows ATK)) as [c|] eqn:Hc.
    - rewrite (iloc_last_Ok _ c Hc). by eauto.
    - right. apply last_None in Hc. rewrite (iloc_last_nil _ Hc).
      split; [done|]. destruct (Z_lt_le_dec top_k 1) as [?|Hk]; [done|].
      by destruct (iloc_to_min_nonempty top_k AT Hk Hlt). }
  2:{ split; [by left|done]. }
  rewrite bind_Ok.
  assert ((∃ dc2, budget_drops ATK SH dc1 = Ok dc2)
          ∨ (budget_drops ATK SH dc1 = IndexError ∧ budget < 1))
    as [[dc2 ->]|[-> Hb]].
  { unfold budget_drops.
    destruct (Z.ltb_spec (len SH) (len ATK)) as [Hlt|Hge]; [|by eauto].
    destruct (last (rows SH)) as [c|] eqn:Hc.
    - rewrite (iloc_last_Ok _ c Hc). by eauto.
    - right. apply last_None in Hc. rewrite (iloc_last_nil _ Hc).
      split; [done|]. destruct (Z_lt_le_dec budget 1) as [?|Hb]; [done|].
      by destruct (iloc_to_min_nonempty budget ATK Hb Hlt). }
  2:{ split; [by right|done]. }
  rewrite bind_Ok. unfold assert.
  repeat match goal with
  | |- context [if ?c then _ else _] => destruct c
  end;
    (split; [done|intros msg [= <-]; set_solver]) || (split; done).
Qed.

(** C6, as stated, fails, even with rejection read in its weakest sense
    (the call does not return a bundle): an input outside the contract,
    scores 1.5, 0 and 2.5 with threshold 2, is not rejected. *)
Lemma input_validation_counterexample :
  ¬ (∀ df threshold top_k budget,
       ¬ input_contract df threshold top_k budget →
       rejected (apply_constraints df threshold top_k budget)).
Proof.
  intros H.
  apply (H wild_df (q 2) 3 2 wild_df_outside_contract
           (result_get empty_bundle (apply_constraints wild_df (q 2) 3 2))).
  vm_compute. reflexivity.
Qed.

(** C6, amended. The call validates nothing and coerces nothing. For
    every threshold and population of finite numbers (scores and threshold
    inside their ranges or not; infinite and NaN values are outside the
    embedding and not covered):
    - with unique ids, [top_k ≥ 1] and [budget ≥ 1] the call returns a
      bundle;
    - with ids unique or not, it returns when at most [top_k] and at most
      [budget] rows reach the threshold;
    - with any [top_k] and [budget], below 1 or not, it returns when no
      row reaches the threshold;
    - every bundle it returns reports the threshold, [top_k] and [budget]
      it was given, and its [all_candidates] are the rows of the input,
      reordered;
    - it raises IndexError only for [top_k < 1] or [budget < 1];
    - an assertion it fails is one of the four checks on the computed
      bundle, none of which names an input field, and it fails one only
      for duplicate ids, [top_k < 1] or [budget < 1]. *)
Theorem unvalidated_inputs df threshold top_k budget :
  (NoDup (col_id df) → 1 ≤ top_k → 1 ≤ budget →
   ∃ r, apply_constraints df threshold top_k budget = Ok r)
  ∧ (len (threshold_filter df threshold) ≤ top_k →
     len (threshold_filter df threshold) ≤ budget →
     ∃ r, apply_constraints df threshold top_k budget = Ok r)
  ∧ (rows (threshold_filter df threshold) = [] →
     ∃ r, apply_constraints df threshold top_k budget = Ok r)
  ∧ (∀ r, apply_constraints df threshold top_k budget = Ok r →
       bi_threshold (boundary_items r) = threshold
       ∧ bi_top_k (boundary_items r) = top_k
       ∧ bi_budget (boundary_items r) = budget
       ∧ rows (all_candidates r) ≡ₚ rows df)
  ∧ (apply_constraints df threshold top_k budget = IndexError →
     top_k < 1 ∨ budget < 1)
  ∧ (∀ msg, apply_constraints df threshold top_k budget = AssertionError msg →
       msg ∈ ["Partition invariant violated: shown UNION dropped != after_threshold";
              "Disjoint invariant violated: shown INTERSECT dropped != empty";
              "Count invariant violated";
              "Negative margins detected"]
       ∧ (¬ NoDup (col_id df) ∨ top_k < 1 ∨ budget < 1)).
Proof.
  assert (NoDup (col_id df) → 1 ≤ top_k → 1 ≤ budget →
          ∃ r, apply_constraints df threshold top_k budget = Ok r) as Hvalid.
  { intros Hnd Hk Hb.
    destruct (apply_constraints_valid df threshold top_k budget Hnd Hk Hb)
      as (r & Hr & _).
    by exists r. }
  destruct (apply_constraints_failures df threshold top_k budget)
    as [Hindex Hassert].
  split; [done|]. split; [|split; [|split; [|split; [done|]]]].
  - intros Hk Hb. rewrite <-len_threshold_filter_sorted in Hk, Hb.
    destruct (apply_constraints_uncut df threshold top_k budget)
      as (r & Hr & _); [by apply iloc_to_all..|].
    by exists r.
  - intros Hnil.
    assert (rows (threshold_filter (sort_candidates df) threshold) = [])
      as Hnil'.
    { apply len_0. rewrite len_threshold_filter_sorted. by apply len_0. }
    destruct (apply_constraints_uncut df threshold top_k budget)
      as (r & Hr & _); [by apply iloc_to_nil..|].
    by exists r.
  - intros r Hr.
    pose proof (apply_constraints_Ok _ _ _ _ _ Hr) as ([Hall _ _ _ Hbi _] & _).
    rewrite Hbi, Hall. repeat split. apply sort_candidates_perm.
  - intros msg Hmsg. split; [by apply Hassert|].
    destruct (decide (NoDup (col_id df))) as [Hnd|Hnd]; [|by left].
    destruct (Z_lt_le_dec top_k 1) as [Hk|Hk]; [by right; left|].
    destruct (Z_lt_le_dec budget 1) as [Hb|Hb]; [by right; right|].
    destruct (Hvalid Hnd Hk Hb) as [r Hr]. congruence.
Qed.

Lemma unvalidated_inputs_witness :
  ¬ input_contract wild_df (q 2) 3 2
  ∧ (∃ r, apply_constraints wild_df (q 2) 3 2 = Ok r)
  ∧ (∃ r, apply_constraints duplicate_df (q 0.4) 5 5 = Ok r)
  ∧ (∃ r, apply_constraints tie_df (q 2) 0 (-3) = Ok r)
  ∧ (bi_threshold (boundary_items tie_bundle) = q 0.4
     ∧ bi_top_k (boundary_items tie_bundle) = 3
     ∧ bi_budget (boundary_items tie_bundle) = 2
     ∧ rows (all_candidates tie_bundle) ≡ₚ rows tie_df_shuffled)
  ∧ (0 < 1 ∨ 2 < 1)
  ∧ ("Count invariant violated"
       ∈ ["Partition invariant violated: shown UNION dropped != after_threshold";
          "Disjoint invariant violated: shown INTERSECT dropped != empty";
          "Count invariant violated";
          "Negative margins detected"]
     ∧ (¬ NoDup (col_id duplicate_df) ∨ 1 < 1 ∨ 1 < 1)).
Proof.
  split; [apply wild_df_outside_contract|].
  split.
  { apply (proj1 (unvalidated_inputs wild_df (q 2) 3 2)); [|lia|lia].
    apply (bool_decide_unpack _). vm_compute. exact I. }
  split.
  { apply (proj1 (proj2 (unvalidated_inputs duplicate_df (q 0.4) 5 5)));
      by vm_compute. }
  split.
  { apply (proj1 (proj2 (proj2 (unvalidated_inputs tie_df (q 2) 0 (-3))))).
    vm_compute; reflexivity. }
  split.
  { apply (proj1 (proj2 (proj2 (proj2
             (unvalidated_inputs tie_df_shuffled (q 0.4) 3 2))))).
    vm_compute; reflexivity. }
  split.
  { apply (proj1 (proj2 (proj2 (proj2 (proj2
             (unvalidated_inputs tie_df (q 0.4) 0 2)))))).
    vm_compute; reflexivity. }
  apply (proj2 (proj2 (proj2 (proj2 (proj2
           (unvalidated_inputs duplicate_df (q 0.4) 1 1)))))).
  vm_compute; reflexivity.
Defined.

(** ** Further evaluations of the scenario *)

(** Neither stage binding: nothing is dropped, and the empty [dropped]
    frame has the input's columns and the three added ones. *)
Example no_drops_schema :
  ∃ r, apply_constraints tie_df (q 0.4) 50 50 = Ok r
    ∧ col_id (shown r) = ["C0003"; "C0001"; "C0002"; "C0004"]
    ∧ rows (dropped r) = []
    ∧ columns (dropped r)
      = ["id"; "score"; "urgency"; "confidence"; "impact"; "cost"; "logit";
         "case_type"; "dropped_reason"; "capacity_stage"; "inclusion_margin"]
    ∧ kth_item (boundary_items r) = None
    ∧ budget_item (boundary_items r) = None.
Proof. eexists. split; [vm_compute; reflexivity|]. by vm_compute. Qed.

(** The empty population: every frame empty, every count zero. *)
Example empty_population :
  ∃ r, apply_constraints (mkDF candidate_columns []) (q 0.5) 20 10 = Ok r
    ∧ rows (all_candidates r) = [] ∧ rows (after_threshold r) = []
    ∧ rows (after_topk r) = [] ∧ rows (shown r) = [] ∧ rows (dropped r) = []
    ∧ counts r = mkCounts 0 0 0 0 0.
Proof. eexists. split; [vm_compute; reflexivity|]. by vm_compute. Qed.

(** A threshold no candidate meets is not an error. *)
Example threshold_above_all :
  ∃ r, apply_constraints tie_df (q 0.9) 3 2 = Ok r
    ∧ rows (after_threshold r) = [] ∧ rows (shown r) = []
    ∧ rows (dropped r) = [].
Proof. eexists. split; [vm_compute; reflexivity|]. by vm_compute. Qed.

(** A negative budget is a slice from the end: two rows are shown, the
    guard [len(shown) == budget_actual] fails and no budget boundary is
    reported. *)
Example negative_budget_boundary :
  ∃ r, apply_constraints tie_df (q 0.4) 3 (-1) = Ok r
    ∧ col_id (shown r) = ["C0003"; "C0001"]
    ∧ budget_item (boundary_items r) = None.
Proof. eexists. split; [vm_compute; reflexivity|]. by vm_compute. Qed.

(** * Further properties of the cascade *)

(** ** Counts and limits *)

Lemma len_iloc_to_le {R} k (df : DataFrame R) : len (iloc_to k df) ≤ len df.
Proof.
  destruct (rows_iloc_to_take k df) as [n Hn]. unfold len. rewrite Hn.
  rewrite length_take. lia.
Qed.

Lemma len_mask_le {R} (p : R → bool) (df : DataFrame R) :
  len (mask p df) ≤ len df.
Proof.
  unfold len, mask; simpl.
  pose proof (length_filter (λ r, p r) (rows df)). lia.
Qed.

Lemma len_sort_candidates df : len (sort_candidates df) = len df.
Proof. unfold len. by rewrite sort_candidates_perm. Qed.

(** X1. The counts of a returned bundle, on any input: [n_total] is the
    size of the input, the stages only shrink
    ([n_shown ≤ n_after_topk ≤ n_after_threshold ≤ n_total]), and the rows
    that passed the threshold are accounted for
    ([n_shown + n_dropped = n_after_threshold]), which is the check the
    app displays as data integrity. *)
Theorem counts_chain df threshold top_k budget r :
  apply_constraints df threshold top_k budget = Ok r →
  n_total (counts r) = len df
  ∧ 0 ≤ n_shown (counts r)
  ∧ n_shown (counts r) ≤ n_after_topk (counts r)
  ∧ n_after_topk (counts r) ≤ n_after_threshold (counts r)
  ∧ n_after_threshold (counts r) ≤ n_total (counts r)
  ∧ 0 ≤ n_dropped (counts r)
  ∧ n_shown (counts r) + n_dropped (counts r) = n_after_threshold (counts r).
Proof.
  intros Hr.
  pose proof (apply_constraints_Ok _ _ _ _ _ Hr)
    as ([Hall Hth Htk Hsh _ Hc] & _ & _ & _ & _ & _ & _ & _ & Hn & _).
  rewrite Hc; cbn [n_total n_shown n_after_topk n_after_threshold n_dropped].
  split; [rewrite Hall; apply len_sort_candidates|].
  split; [apply len_nonneg|].
  split; [rewrite Hsh; apply len_iloc_to_le|].
  split; [rewrite Htk; apply len_iloc_to_le|].
  split; [rewrite Hth; apply len_mask_le|].
  split; [apply len_nonneg|done].
Qed.

Lemma counts_chain_witness :
  apply_constraints tie_df (q 0.4) 3 2 = Ok tie_bundle
  ∧ n_total (counts tie_bundle) = len tie_df
  ∧ 0 ≤ n_shown (counts tie_bundle)
  ∧ n_shown (counts tie_bundle) ≤ n_after_topk (counts tie_bundle)
  ∧ n_after_topk (counts tie_bundle) ≤ n_after_threshold (counts tie_bundle)
  ∧ n_after_threshold (counts tie_bundle) ≤ n_total (counts tie_bundle)
  ∧ 0 ≤ n_dropped (counts tie_bundle)
  ∧ n_shown (counts tie_bundle) + n_dropped (counts tie_bundle)
    = n_after_threshold (counts tie_bundle).
Proof.
  split; [vm_compute; reflexivity|].
  apply (counts_chain tie_df (q 0.4) 3 2 tie_bundle). vm_compute; reflexivity.
Defined.

(** X2. With limits that are not negative, a returned bundle respects
    them: at most [top_k] rows after the top-K filter, at most [budget]
    rows shown, and never more shown than [top_k]. *)
Theorem limits_respected df threshold top_k budget r :
  0 ≤ top_k → 0 ≤ budget →
  apply_constraints df threshold top_k budget = Ok r →
  len (after_topk r) ≤ top_k
  ∧ len (shown r) ≤ budget
  ∧ len (shown r) ≤ top_k.
Proof.
  intros Hk Hb Hr.
  pose proof (apply_constraints_Ok _ _ _ _ _ Hr) as ([_ _ Htk Hsh _ _] & _).
  assert (len (after_topk r) ≤ top_k) as H1.
  { rewrite Htk. unfold topk_filter.
    destruct (iloc_to_min_len top_k (after_threshold r) Hk) as [_ ->]. lia. }
  assert (len (shown r) ≤ len (after_topk r)) as H2.
  { rewrite Hsh. apply len_iloc_to_le. }
  split; [done|]. split; [|lia].
  rewrite Hsh. unfold budget_cap.
  destruct (iloc_to_min_len budget (after_topk r) Hb) as [_ ->]. lia.
Qed.

Lemma limits_respected_witness :
  0 ≤ 3 ∧ 0 ≤ 2 ∧ apply_constraints tie_df (q 0.4) 3 2 = Ok tie_bundle
  ∧ len (after_topk tie_bundle) ≤ 3
  ∧ len (shown tie_bundle) ≤ 2
  ∧ len (shown tie_bundle) ≤ 3.
Proof.
  split; [lia|]. split; [lia|]. split; [vm_compute; reflexivity|].
  apply (limits_respected tie_df (q 0.4) 3 2 tie_bundle);
    [lia|lia|vm_compute; reflexivity].
Defined.

(** ** Where the rows of a returned bundle stand *)

Lemma shown_subseteq_after_topk df threshold top_k budget r :
  apply_constraints df threshold top_k budget = Ok r →
  ∃ n, rows (shown r) = take n (rows (after_topk r)).
Proof.
  intros ([_ _ _ Hsh _ _] & _)%apply_constraints_Ok. rewrite Hsh.
  apply rows_iloc_to_take.
Qed.

Lemma after_topk_subseteq_after_threshold df threshold top_k budget r :
  apply_constraints df threshold top_k budget = Ok r →
  ∃ n, rows (after_topk r) = take n (rows (after_threshold r)).
Proof.
  intros ([_ _ Htk _ _ _] & _)%apply_constraints_Ok. rewrite Htk.
  apply rows_iloc_to_take.
Qed.

Lemma elem_of_take {A} (l : list A) n x : x ∈ take n l → x ∈ l.
Proof. apply (sublist_subseteq _ _ (sublist_take l n)). Qed.

Lemma elem_of_outside_topk AT ATK x :
  x ∈ rows (outside_topk AT ATK) ↔ x ∈ rows AT ∧ id x ∉ col_id ATK.
Proof.
  unfold outside_topk, mask, isin; simpl.
  rewrite list_elem_of_filter, negb_True, bool_decide_spec. tauto.
Qed.

Lemma elem_of_over_budget ATK SH x :
  x ∈ rows (over_budget ATK SH) ↔ x ∈ rows ATK ∧ id x ∉ col_id SH.
Proof.
  unfold over_budget, mask, id_set; simpl.
  rewrite list_elem_of_filter, negb_True, bool_decide_spec.
  rewrite elem_of_list_to_set. tauto.
Qed.

Lemma dropped_candidate_eligible df threshold top_k budget r d :
  apply_constraints df threshold top_k budget = Ok r →
  d ∈ rows (dropped r) → candidate d ∈ rows (after_threshold r).
Proof.
  intros Hr Hd.
  destruct (dropped_row_origin _ _ _ _ _ _ Hr Hd)
    as (_ & [(_ & _ & Hc & _)|(_ & _ & Hc & _)]).
  - by apply elem_of_outside_topk in Hc as [? _].
  - apply elem_of_over_budget in Hc as [Hc _].
    destruct (after_topk_subseteq_after_threshold _ _ _ _ _ Hr) as [n Hn].
    rewrite Hn in Hc. by eapply elem_of_take.
Qed.

Lemma elem_of_after_threshold df threshold top_k budget r c :
  apply_constraints df threshold top_k budget = Ok r →
  c ∈ rows (after_threshold r) ↔ c ∈ rows df ∧ (threshold ≤ score c)%Qc.
Proof.
  intros ([Hall Hth _ _ _ _] & _)%apply_constraints_Ok.
  rewrite Hth, Hall. unfold threshold_filter, mask; cbn [rows].
  rewrite list_elem_of_filter, Qcleb_le, sort_candidates_perm. tauto.
Qed.

(** X3. The threshold on any returned bundle: a row of the input is in
    [after_threshold] exactly when its score is at least the threshold, and
    no row below the threshold is shown or appears in [dropped] (the
    dropped table holds near misses only). *)
Theorem threshold_respected df threshold top_k budget r :
  apply_constraints df threshold top_k budget = Ok r →
  (∀ c, c ∈ rows (after_threshold r) ↔
        c ∈ rows df ∧ (threshold ≤ score c)%Qc)
  ∧ (∀ c, c ∈ rows (shown r) → c ∈ rows df ∧ (threshold ≤ score c)%Qc)
  ∧ (∀ d, d ∈ rows (dropped r) →
        candidate d ∈ rows df ∧ (threshold ≤ row_score d)%Qc).
Proof.
  intros Hr.
  pose proof (λ c, elem_of_after_threshold _ _ _ _ _ c Hr) as HAT.
  split; [done|]. split.
  - intros c Hc. apply HAT.
    destruct (shown_subseteq_after_topk _ _ _ _ _ Hr) as [n Hn].
    destruct (after_topk_subseteq_after_threshold _ _ _ _ _ Hr) as [m Hm].
    rewrite Hn in Hc. apply elem_of_take in Hc. rewrite Hm in Hc.
    by eapply elem_of_take.
  - intros d Hd. apply HAT. by eapply dropped_candidate_eligible.
Qed.

Lemma threshold_respected_witness :
  apply_constraints tie_df (q 0.4) 3 2 = Ok tie_bundle
  ∧ (∀ c, c ∈ rows (after_threshold tie_bundle) ↔
          c ∈ rows tie_df ∧ (q 0.4 ≤ score c)%Qc)
  ∧ (∀ c, c ∈ rows (shown tie_bundle) →
          c ∈ rows tie_df ∧ (q 0.4 ≤ score c)%Qc)
  ∧ (∀ d, d ∈ rows (dropped tie_bundle) →
          candidate d ∈ rows tie_df ∧ (q 0.4 ≤ row_score d)%Qc).
Proof.
  split; [vm_compute; reflexivity|].
  apply (threshold_respected tie_df (q 0.4) 3 2 tie_bundle).
  vm_compute; reflexivity.
Defined.

(** In a list in canonical order, a row whose id is not among the ids of
    a prefix stands behind every row of the prefix. *)
Lemma behind_prefix (l : list Candidate) n s x :
  StronglySorted (cle (lexico canonical_order)) l →
  s ∈ take n l → x ∈ l → id x ∉ id <$> take n l →
  (score x ≤ score s)%Qc.
Proof.
  intros Hs Hin Hx Hid. apply canonical_le_score.
  rewrite <-(take_drop n l) in Hs, Hx.
  apply elem_of_app in Hx as [Hx|Hx].
  { destruct Hid. by apply list_elem_of_fmap_2. }
  by apply (StronglySorted_app_1_elem_of _ (take n l) (drop n l)).
Qed.

(** X4. In any returned bundle no dropped row outscores a shown row. *)
Theorem shown_outrank_dropped df threshold top_k budget r s d :
  apply_constraints df threshold top_k budget = Ok r →
  s ∈ rows (shown r) → d ∈ rows (dropped r) →
  (row_score d ≤ score s)%Qc.
Proof.
  intros Hr Hs Hd.
  pose proof (apply_constraints_Ok _ _ _ _ _ Hr) as ([Hall Hth Htk Hsh _ _] & _).
  destruct (shown_subseteq_after_topk _ _ _ _ _ Hr) as [m Hm].
  destruct (after_topk_subseteq_after_threshold _ _ _ _ _ Hr) as [n Hn].
  assert (StronglySorted (cle (lexico canonical_order))
            (rows (after_threshold r))) as Hsorted.
  { rewrite Hth, Hall. apply after_threshold_sorted. }
  destruct (dropped_row_origin _ _ _ _ _ _ Hr Hd)
    as (_ & [(_ & _ & Hc & _)|(_ & _ & Hc & _)]).
  - apply elem_of_outside_topk in Hc as [Hc Hid].
    apply (behind_prefix (rows (after_threshold r)) n); [done| |done|].
    + rewrite <-Hn. rewrite Hm in Hs. by eapply elem_of_take.
    + by rewrite <-Hn.
  - apply elem_of_over_budget in Hc as [Hc Hid].
    apply (behind_prefix (rows (after_topk r)) m); [| |done|].
    + rewrite Hn. eapply StronglySorted_sublist; [apply sublist_take|done].
    + by rewrite <-Hm.
    + by rewrite <-Hm.
Qed.

Lemma shown_outrank_dropped_witness :
  apply_constraints tie_df (q 0.4) 3 2 = Ok tie_bundle
  ∧ ∀ s d, s ∈ rows (shown tie_bundle) → d ∈ rows (dropped tie_bundle) →
           (row_score d ≤ score s)%Qc.
Proof.
  split; [vm_compute; reflexivity|]. intros s d.
  apply (shown_outrank_dropped tie_df (q 0.4) 3 2 tie_bundle).
  vm_compute; reflexivity.
Defined.

(** X5. The closest miss comes first: in any returned bundle the first row
    of [dropped], which the app explains as the closest dropped option,
    has a margin that is not negative and is the least of all margins. *)
Theorem closest_dropped_first df threshold top_k budget r d0 :
  apply_constraints df threshold top_k budget = Ok r →
  head (rows (dropped r)) = Some d0 →
  (0 ≤ inclusion_margin d0)%Qc
  ∧ ∀ d, d ∈ rows (dropped r) → (inclusion_margin d0 ≤ inclusion_margin d)%Qc.
Proof.
  intros Hr Hd0.
  pose proof (apply_constraints_Ok _ _ _ _ _ Hr)
    as (_ & _ & _ & _ & _ & _ & _ & _ & _ & Hm).
  pose proof (dropped_rows_sorted_concat _ _ _ _ _ Hr) as HD.
  assert (StronglySorted (cle (lexico dropped_order)) (rows (dropped r))) as Hs.
  { rewrite HD. apply stable_sort_strongly_sorted, _. }
  destruct (rows (dropped r)) as [|d1 l]; [done|]. injection Hd0 as ->.
  split; [by apply Forall_cons in Hm as [? _]|].
  intros d [->|Hd]%elem_of_cons; [apply Qcle_refl|].
  apply StronglySorted_inv in Hs as [_ Hall].
  eapply Forall_forall in Hall; [|done].
  apply cle_dropped in Hall as [Hlt|[-> _]];
    [by apply Qclt_le_weak|apply Qcle_refl].
Qed.

Lemma closest_dropped_first_witness :
  ∃ d0, apply_constraints tie_df (q 0.4) 3 2 = Ok tie_bundle
  ∧ head (rows (dropped tie_bundle)) = Some d0
  ∧ (0 ≤ inclusion_margin d0)%Qc
  ∧ ∀ d, d ∈ rows (dropped tie_bundle) →
         (inclusion_margin d0 ≤ inclusion_margin d)%Qc.
Proof.
  eexists. split; [vm_compute; reflexivity|]. split; [reflexivity|].
  apply (closest_dropped_first tie_df (q 0.4) 3 2 tie_bundle);
    [vm_compute; reflexivity|reflexivity].
Defined.

(** X6. What the stage of a dropped row records, in any returned bundle:
    the reason is the fixed text; a row of stage [top_k] passed the
    threshold and its id is not in [after_topk]; a row of stage [budget]
    is a row of [after_topk] whose id is not in [shown]; there is no other
    stage. *)
Theorem dropped_stage_meaning df threshold top_k budget r d :
  apply_constraints df threshold top_k budget = Ok r →
  d ∈ rows (dropped r) →
  dropped_reason d = "eligible but dropped by capacity"
  ∧ ((capacity_stage d = "top_k"
      ∧ candidate d ∈ rows (after_threshold r)
      ∧ row_id d ∉ col_id (after_topk r))
     ∨ (capacity_stage d = "budget"
      ∧ candidate d ∈ rows (after_topk r)
      ∧ row_id d ∉ col_id (shown r))).
Proof.
  intros Hr Hd.
  destruct (dropped_row_origin _ _ _ _ _ _ Hr Hd)
    as (Hreason & [(Hs & _ & Hc & _)|(Hs & _ & Hc & _)]);
    (split; [done|]).
  - left. by apply elem_of_outside_topk in Hc.
  - right. by apply elem_of_over_budget in Hc.
Qed.

Lemma dropped_stage_meaning_witness :
  apply_constraints tie_df (q 0.4) 3 2 = Ok tie_bundle
  ∧ ∀ d, d ∈ rows (dropped tie_bundle) →
    dropped_reason d = "eligible but dropped by capacity"
    ∧ ((capacity_stage d = "top_k"
        ∧ candidate d ∈ rows (after_threshold tie_bundle)
        ∧ row_id d ∉ col_id (after_topk tie_bundle))
       ∨ (capacity_stage d = "budget"
        ∧ candidate d ∈ rows (after_topk tie_bundle)
        ∧ row_id d ∉ col_id (shown tie_bundle))).
Proof.
  split; [vm_compute; reflexivity|]. intros d.
  apply (dropped_stage_meaning tie_df (q 0.4) 3 2 tie_bundle).
  vm_compute; reflexivity.
Defined.

(** ** The shown rows as a prefix of the canonical order *)

(** Filtering a list in order by a property that passes upwards along the
    order keeps a prefix. *)
Lemma filter_sorted_prefix {A} (R : relation A) (P : A → Prop)
    `{∀ x, Decision (P x)} (l : list A) :
  (∀ a b, R a b → P b → P a) → StronglySorted R l →
  filter P l = take (length (filter P l)) l.
Proof.
  intros HP. induction 1 as [|x l Hl IH Hx]; [done|].
  rewrite filter_cons. destruct (decide (P x)) as [Hpx|Hpx]; simpl.
  - by rewrite <-IH.
  - rewrite filter_none; [done|].
    eapply Forall_impl; [exact Hx|]. intros y Hxy Hy. apply Hpx.
    by apply (HP x y).
Qed.

Lemma length_filter_mono {A} (P Q : A → Prop)
    `{∀ x, Decision (P x)} `{∀ x, Decision (Q x)} (l : list A) :
  (∀ x, P x → Q x) → (length (filter P l) ≤ length (filter Q l))%nat.
Proof.
  intros HPQ. induction l as [|x l IH]; [done|].
  rewrite !filter_cons.
  destruct (decide (P x)) as [Hp|Hp]; destruct (decide (Q x)) as [Hq|Hq];
    simpl; try lia.
  destruct Hq. by apply HPQ.
Qed.

Lemma take_prefix_le {A} (l : list A) n m :
  (n ≤ m)%nat → take n l `prefix_of` take m l.
Proof.
  intros Hnm. replace (take n l) with (take n (take m l)).
  - apply prefix_take.
  - rewrite take_take. f_equal. lia.
Qed.

Lemma threshold_filter_prefix df threshold :
  rows (threshold_filter (sort_candidates df) threshold)
  = take (Z.to_nat (len (threshold_filter (sort_candidates df) threshold)))
      (rows (sort_candidates df)).
Proof.
  unfold len. rewrite Nat2Z.id. unfold threshold_filter, mask; cbn [rows].
  apply (filter_sorted_prefix (cle (lexico canonical_order)));
    [|apply canonical_order_sorted].
  intros a b Hab%canonical_le_score Hb%Qcleb_le. apply Qcleb_le.
  by eapply Qcle_trans.
Qed.

(** The frames of the stages, for limits that are not negative, as
    prefixes of the sorted population. *)
Lemma stages_prefix df threshold top_k budget :
  0 ≤ top_k → 0 ≤ budget →
  let all_candidates := sort_candidates df in
  let after_threshold := threshold_filter all_candidates threshold in
  let after_topk := topk_filter after_threshold top_k in
  let shown := budget_cap after_topk budget in
  rows after_topk
    = take (Z.to_nat (Z.min top_k (len after_threshold))) (rows all_candidates)
  ∧ rows shown
    = take (Z.to_nat (Z.min (Z.min top_k budget) (len after_threshold)))
        (rows all_candidates).
Proof.
  intros Hk Hb AC AT ATK SH.
  pose proof (len_nonneg AT) as HlAT.
  destruct (iloc_to_min_len top_k AT Hk) as [H1 H1l].
  destruct (iloc_to_min_len budget ATK Hb) as [H2 H2l].
  change (rows ATK = take (Z.to_nat (top_k `min` len AT)) (rows AT)) in H1.
  change (len ATK = top_k `min` len AT) in H1l.
  change (rows SH = take (Z.to_nat (budget `min` len ATK)) (rows ATK)) in H2.
  assert (rows AT = take (Z.to_nat (len AT)) (rows AC)) as HAT
    by apply threshold_filter_prefix.
  split.
  - rewrite H1, HAT, take_take. f_equal. lia.
  - rewrite H2, H1, HAT, !take_take, H1l. f_equal. lia.
Qed.

(** X7. With limits that are not negative, the rows shown are the first
    [min(top_k, budget, n_after_threshold)] rows of [all_candidates], and
    [after_threshold] and [after_topk] are prefixes of it too: the three
    gates together cut the canonical order at one point. *)
Theorem shown_is_prefix df threshold top_k budget r :
  0 ≤ top_k → 0 ≤ budget →
  apply_constraints df threshold top_k budget = Ok r →
  rows (after_threshold r)
    = take (Z.to_nat (len (after_threshold r))) (rows (all_candidates r))
  ∧ rows (after_topk r)
    = take (Z.to_nat (Z.min top_k (len (after_threshold r))))
        (rows (all_candidates r))
  ∧ rows (shown r)
    = take (Z.to_nat (Z.min (Z.min top_k budget) (len (after_threshold r))))
        (rows (all_candidates r)).
Proof.
  intros Hk Hb Hr.
  pose proof (apply_constraints_Ok _ _ _ _ _ Hr) as ([Hall Hth Htk Hsh _ _] & _).
  destruct (stages_prefix df threshold top_k budget Hk Hb) as [H1 H2].
  rewrite Hsh, Htk, Hth, Hall.
  split; [apply threshold_filter_prefix|]. by split.
Qed.

Lemma shown_is_prefix_witness :
  0 ≤ 3 ∧ 0 ≤ 2 ∧ apply_constraints tie_df (q 0.4) 3 2 = Ok tie_bundle
  ∧ rows (after_threshold tie_bundle)
    = take (Z.to_nat (len (after_threshold tie_bundle)))
        (rows (all_candidates tie_bundle))
  ∧ rows (after_topk tie_bundle)
    = take (Z.to_nat (Z.min 3 (len (after_threshold tie_bundle))))
        (rows (all_candidates tie_bundle))
  ∧ rows (shown tie_bundle)
    = take (Z.to_nat (Z.min (Z.min 3 2) (len (after_threshold tie_bundle))))
        (rows (all_candidates tie_bundle)).
Proof.
  split; [lia|]. split; [lia|]. split; [vm_compute; reflexivity|].
  apply (shown_is_prefix tie_df (q 0.4) 3 2 tie_bundle);
    [lia|lia|vm_compute; reflexivity].
Defined.

(** X8. Loosening the constraints only adds rows at the end of [shown]:
    for a lower threshold, a larger [top_k] and a larger [budget] (limits
    not negative) on the same population, the rows shown before are a
    prefix of the rows shown after. *)
Theorem loosening_extends_shown df threshold threshold' top_k top_k'
    budget budget' r r' :
  (threshold' ≤ threshold)%Qc →
  0 ≤ top_k → top_k ≤ top_k' → 0 ≤ budget → budget ≤ budget' →
  apply_constraints df threshold top_k budget = Ok r →
  apply_constraints df threshold' top_k' budget' = Ok r' →
  rows (shown r) `prefix_of` rows (shown r').
Proof.
  intros Ht Hk Hk' Hb Hb' Hr Hr'.
  pose proof (apply_constraints_Ok _ _ _ _ _ Hr) as ([Hall Hth Htk Hsh _ _] & _).
  pose proof (apply_constraints_Ok _ _ _ _ _ Hr')
    as ([Hall' Hth' Htk' Hsh' _ _] & _).
  destruct (stages_prefix df threshold top_k budget Hk Hb) as [_ H].
  destruct (stages_prefix df threshold' top_k' budget') as [_ H']; [lia..|].
  rewrite Hsh, Htk, Hth, Hall, H, Hsh', Htk', Hth', Hall', H'.
  apply take_prefix_le.
  assert (len (threshold_filter (sort_candidates df) threshold)
          ≤ len (threshold_filter (sort_candidates df) threshold')) as Hlen.
  { unfold len, threshold_filter, mask; cbn [rows]. apply inj_le.
    apply length_filter_mono. intros c Hc%Qcleb_le. apply Qcleb_le.
    by eapply Qcle_trans. }
  lia.
Qed.

Lemma loosening_extends_shown_witness :
  ∃ r r', (q 0.4 ≤ q 0.5)%Qc ∧ 0 ≤ 2 ∧ 2 ≤ 3 ∧ 0 ≤ 1 ∧ 1 ≤ 2
  ∧ apply_constraints tie_df (q 0.5) 2 1 = Ok r
  ∧ apply_constraints tie_df (q 0.4) 3 2 = Ok r'
  ∧ rows (shown r) `prefix_of` rows (shown r').
Proof.
  do 2 eexists. split; [by vm_compute|]. do 4 (split; [lia|]).
  split; [vm_compute; reflexivity|]. split; [vm_compute; reflexivity|].
  apply (loosening_extends_shown tie_df (q 0.5) (q 0.4) 2 3 1 2);
    [by vm_compute|lia|lia|lia|lia|vm_compute; reflexivity
    |vm_compute; reflexivity].
Defined.

(** ** How many rows each stage drops *)

Lemma stage_drops_length stage (l : list Candidate) n :
  (1 ≤ n)%nat →
  length (stage_drops stage (take n l) (drop n l)) = length (drop n l).
Proof.
  intros Hn. rewrite <-(stage_drops_candidates stage l n Hn) at 2.
  by rewrite length_fmap.
Qed.

Lemma stage_drops_stage stage kept rest :
  Forall (λ d, capacity_stage d = stage) (stage_drops stage kept rest).
Proof.
  apply Forall_forall. by intros d (c & x & _ & _ & ->)%stage_drops_elem.
Qed.

(** X9. On a valid input the stages account for the drops one by one: the
    rows of [dropped] with stage [top_k] number
    [n_after_threshold - n_after_topk], those with stage [budget] number
    [n_after_topk - n_shown]. *)
Theorem drops_per_stage df threshold top_k budget :
  NoDup (col_id df) → 1 ≤ top_k → 1 ≤ budget →
  ∃ r, apply_constraints df threshold top_k budget = Ok r
    ∧ Z.of_nat (length (filter (λ d, capacity_stage d = "top_k")
                          (rows (dropped r))))
      = len (after_threshold r) - len (after_topk r)
    ∧ Z.of_nat (length (filter (λ d, capacity_stage d = "budget")
                          (rows (dropped r))))
      = len (after_topk r) - len (shown r).
Proof.
  intros Hnd Hk Hb.
  destruct (apply_constraints_valid df threshold top_k budget Hnd Hk Hb)
    as (r & Hr & [Hall Hth Htk Hsh _ _] & HD).
  exists r. split; [done|]. rewrite HD, Hsh, Htk, Hth, Hall.
  set (AT := threshold_filter (sort_candidates df) threshold).
  set (ATK := topk_filter AT top_k). set (SH := budget_cap ATK budget).
  assert (rows ATK = take (Z.to_nat top_k) (rows AT)) as HATK
    by (apply rows_iloc_to_min; lia).
  assert (rows SH = take (Z.to_nat budget) (rows ATK)) as HSH
    by (apply rows_iloc_to_min; lia).
  rewrite !stable_sort_perm by apply _. rewrite !filter_app, !length_app.
  pose proof (stage_drops_stage "top_k" (rows ATK)
                (drop (Z.to_nat top_k) (rows AT))) as HX.
  pose proof (stage_drops_stage "budget" (rows SH)
                (drop (Z.to_nat budget) (rows ATK))) as HY.
  rewrite (filter_all _ _ HX), (filter_all _ _ HY).
  rewrite (filter_none (λ d, capacity_stage d = "top_k")
             (stage_drops "budget" _ _)),
    (filter_none (λ d, capacity_stage d = "budget")
       (stage_drops "top_k" _ _)).
  - unfold len. rewrite HSH, (stage_drops_length "budget") by lia.
    rewrite HATK, stage_drops_length by lia.
    rewrite !length_drop, !length_take. simpl. lia.
  - eapply Forall_impl; [exact HX|]. by intros d ->.
  - eapply Forall_impl; [exact HY|]. by intros d ->.
Qed.

Lemma drops_per_stage_witness :
  ∃ r, apply_constraints tie_df (q 0.4) 3 2 = Ok r
    ∧ Z.of_nat (length (filter (λ d, capacity_stage d = "top_k")
                          (rows (dropped r))))
      = len (after_threshold r) - len (after_topk r)
    ∧ Z.of_nat (length (filter (λ d, capacity_stage d = "budget")
                          (rows (dropped r))))
      = len (after_topk r) - len (shown r).
Proof.
  apply (drops_per_stage tie_df (q 0.4) 3 2); [|lia|lia].
  apply (bool_decide_unpack _). vm_compute. exact I.
Defined.

(** ** Limits that do not bind *)

(** X10. A [top_k] at least the number of rows that passed the threshold
    does not bind: in the returned bundle [after_topk] is
    [after_threshold], no K-th boundary is reported and no row is dropped
    at stage [top_k]. *)
Theorem top_k_not_binding df threshold top_k budget r :
  apply_constraints df threshold top_k budget = Ok r →
  len (after_threshold r) ≤ top_k →
  after_topk r = after_threshold r
  ∧ kth_item (boundary_items r) = None
  ∧ kth_score (boundary_items r) = None
  ∧ ∀ d, d ∈ rows (dropped r) → capacity_stage d = "budget".
Proof.
  intros Hr Hk.
  pose proof (apply_constraints_Ok _ _ _ _ _ Hr) as ([_ _ Htk _ Hbi _] & _).
  assert (after_topk r = after_threshold r) as Heq.
  { rewrite Htk. by apply iloc_to_all. }
  assert (kth_item (boundary_items r) = None) as Hkth.
  { rewrite Hbi, kth_boundary. rewrite decide_False; [done|]. lia. }
  split; [done|]. split; [done|]. split.
  - rewrite Hbi in Hkth |- *. unfold compute_boundary_items in *.
    simpl in *. by rewrite Hkth.
  - intros d Hd.
    destruct (dropped_row_origin _ _ _ _ _ _ Hr Hd)
      as (_ & [(_ & Hlt & _)|(Hs & _)]); [|done].
    rewrite Heq in Hlt. lia.
Qed.

Lemma top_k_not_binding_witness :
  ∃ r, apply_constraints tie_df (q 0.4) 4 2 = Ok r
  ∧ len (after_threshold r) ≤ 4
  ∧ after_topk r = after_threshold r
  ∧ kth_item (boundary_items r) = None
  ∧ kth_score (boundary_items r) = None
  ∧ ∀ d, d ∈ rows (dropped r) → capacity_stage d = "budget".
Proof.
  eexists. split; [vm_compute; reflexivity|]. split; [by vm_compute|].
  apply (top_k_not_binding tie_df (q 0.4) 4 2);
    [vm_compute; reflexivity|by vm_compute].
Defined.

(** X11. A [budget] at least the number of rows after the top-K filter
    does not bind: in the returned bundle [shown] is [after_topk], no
    budget boundary is reported and no row is dropped at stage
    [budget]. *)
Theorem budget_not_binding df threshold top_k budget r :
  apply_constraints df threshold top_k budget = Ok r →
  len (after_topk r) ≤ budget →
  shown r = after_topk r
  ∧ budget_item (boundary_items r) = None
  ∧ budget_score (boundary_items r) = None
  ∧ ∀ d, d ∈ rows (dropped r) → capacity_stage d = "top_k".
Proof.
  intros Hr Hb.
  pose proof (apply_constraints_Ok _ _ _ _ _ Hr) as ([_ _ _ Hsh Hbi _] & _).
  pose proof (len_nonneg (after_topk r)) as Hl.
  assert (shown r = after_topk r) as Heq.
  { rewrite Hsh. by apply iloc_to_all. }
  assert (budget_item (boundary_items r) = None) as Hbud.
  { rewrite Hbi, Hsh, budget_boundary by lia.
    rewrite decide_False; [done|]. lia. }
  split; [done|]. split; [done|]. split.
  - rewrite Hbi in Hbud |- *. unfold compute_boundary_items in *.
    simpl in *. by rewrite Hbud.
  - intros d Hd.
    destruct (dropped_row_origin _ _ _ _ _ _ Hr Hd)
      as (_ & [(Hs & _)|(_ & Hlt & _)]); [done|].
    rewrite Heq in Hlt. lia.
Qed.

Lemma budget_not_binding_witness :
  ∃ r, apply_constraints tie_df (q 0.4) 3 3 = Ok r
  ∧ len (after_topk r) ≤ 3
  ∧ shown r = after_topk r
  ∧ budget_item (boundary_items r) = None
  ∧ budget_score (boundary_items r) = None
  ∧ ∀ d, d ∈ rows (dropped r) → capacity_stage d = "top_k".
Proof.
  eexists. split; [vm_compute; reflexivity|]. split; [by vm_compute|].
  apply (budget_not_binding tie_df (q 0.4) 3 3);
    [vm_compute; reflexivity|by vm_compute].
Defined.

(** ** Calls that cut nothing, calls with no capacity *)

(** X12. Limits that cut nothing: when at most [top_k] and at most
    [budget] rows of the input reach the threshold, the call returns
    (duplicate ids or not), every row that reaches the threshold is shown,
    and [dropped] is the empty frame. *)
Theorem uncut_population df threshold top_k budget :
  len (threshold_filter df threshold) ≤ top_k →
  len (threshold_filter df threshold) ≤ budget →
  ∃ r, apply_constraints df threshold top_k budget = Ok r
    ∧ shown r = after_threshold r
    ∧ (∀ c, c ∈ rows (shown r) ↔ c ∈ rows df ∧ (threshold ≤ score c)%Qc)
    ∧ rows (dropped r) = []
    ∧ n_dropped (counts r) = 0.
Proof.
  intros Hk Hb. rewrite <-len_threshold_filter_sorted in Hk, Hb.
  destruct (apply_constraints_uncut df threshold top_k budget)
    as (r & Hr & _ & HAT & _ & HSH & HD & Hn).
  { by apply iloc_to_all. }
  { by apply iloc_to_all. }
  exists r. split; [done|]. split; [by rewrite HSH, HAT|].
  split; [|by rewrite HD].
  intros c. rewrite HSH, <-HAT. by eapply elem_of_after_threshold.
Qed.

Lemma uncut_population_witness :
  ∃ r, apply_constraints duplicate_df (q 0.4) 5 5 = Ok r
    ∧ shown r = after_threshold r
    ∧ (∀ c, c ∈ rows (shown r)
            ↔ c ∈ rows duplicate_df ∧ (q 0.4 ≤ score c)%Qc)
    ∧ rows (dropped r) = []
    ∧ n_dropped (counts r) = 0.
Proof.
  apply (uncut_population duplicate_df (q 0.4) 5 5); by vm_compute.
Defined.

Lemma iloc_to_0 {R} (df : DataFrame R) :
  rows (iloc_to (Z.min 0 (len df)) df) = [].
Proof.
  pose proof (len_nonneg df). rewrite Z.min_l by done. done.
Qed.

(** X13. No capacity. With [top_k = 0] or [budget = 0] the call raises
    IndexError as soon as one row of the input reaches the threshold (the
    cutoff row [iloc[-1]] of an empty frame), and returns, with nothing
    shown and nothing dropped, when none does. *)
Theorem zero_capacity df threshold top_k budget :
  top_k = 0 ∨ budget = 0 →
  ((∃ c, c ∈ rows df ∧ (threshold ≤ score c)%Qc) →
   apply_constraints df threshold top_k budget = IndexError)
  ∧ ((∀ c, c ∈ rows df → ¬ (threshold ≤ score c)%Qc) →
     ∃ r, apply_constraints df threshold top_k budget = Ok r
       ∧ rows (shown r) = [] ∧ rows (dropped r) = []).
Proof.
  intros Hz.
  set (AT := threshold_filter (sort_candidates df) threshold).
  assert (∀ c, c ∈ rows AT ↔ c ∈ rows df ∧ (threshold ≤ score c)%Qc) as HAT.
  { intros c. unfold AT, threshold_filter, mask; cbn [rows].
    rewrite list_elem_of_filter, Qcleb_le, sort_candidates_perm. tauto. }
  split.
  - intros (c & Hc%HAT). unfold apply_constraints. cbv zeta. fold AT.
    assert (0 < len AT) as Hpos.
    { apply len_pos_rows. intros E. rewrite E in Hc. by apply elem_of_nil in Hc. }
    set (ATK := topk_filter AT top_k). set (SH := budget_cap ATK budget).
    destruct (decide (rows ATK = [])) as [Hnil|Hne].
    + unfold topk_drops. apply len_0 in Hnil as Hl. rewrite Hl.
      destruct (Z.ltb_spec 0 (len AT)); [|lia].
      by rewrite iloc_last_nil.
    + assert (budget = 0) as ->.
      { destruct Hz as [->|Hz]; [|done]. destruct Hne. apply iloc_to_0. }
      assert (rows SH = []) as HSH by apply iloc_to_0.
      assert (∃ dc1, topk_drops AT ATK [] = Ok dc1) as [dc1 ->].
      { unfold topk_drops. destruct (len ATK <? len AT); [|by eauto].
        destruct (last (rows ATK)) as [k|] eqn:E.
        - rewrite (iloc_last_Ok _ _ E). by eauto.
        - by apply last_None in E. }
      rewrite bind_Ok. unfold budget_drops.
      apply len_0 in HSH as Hl. rewrite Hl.
      apply len_pos_rows in Hne.
      destruct (Z.ltb_spec 0 (len ATK)); [|lia].
      by rewrite iloc_last_nil.
  - intros Hnone.
    assert (rows AT = []) as Hnil.
    { destruct (rows AT) as [|c l] eqn:E; [done|].
      assert (c ∈ c :: l) as [H1 H2]%HAT by left. by destruct (Hnone c). }
    destruct (apply_constraints_uncut df threshold top_k budget)
      as (r & Hr & _ & _ & _ & HSH & HD & _).
    { by apply iloc_to_nil. }
    { by apply iloc_to_nil. }
    exists r. split; [done|]. by rewrite HSH, HD.
Qed.

Lemma zero_capacity_witness :
  apply_constraints tie_df (q 0.4) 3 0 = IndexError
  ∧ ∃ r, apply_constraints tie_df (q 2) 3 0 = Ok r
      ∧ rows (shown r) = [] ∧ rows (dropped r) = [].
Proof.
  split.
  - apply (zero_capacity tie_df (q 0.4) 3 0); [by right|].
    exists (test_row "C0001" 0.5). split; [|by vm_compute].
    apply (bool_decide_unpack _). vm_compute. exact I.
  - apply (zero_capacity tie_df (q 2) 3 0); [by right|].
    apply Forall_forall. unfold tie_df; cbn [rows].
    repeat constructor; vm_compute; intros H; by apply H.
Defined.

(** ** The columns of the frames *)

Lemma mark_dropped_columns stage cutoff (df : DataFrame Candidate) :
  "dropped_reason" ∉ columns df → "capacity_stage" ∉ columns df →
  "inclusion_margin" ∉ columns df →
  columns (mark_dropped stage cutoff df)
  = columns df ++ ["dropped_reason"; "capacity_stage"; "inclusion_margin"].
Proof.
  intros H1 H2 H3. unfold mark_dropped, set_column; cbn [columns].
  rewrite (bool_decide_eq_false_2 _ H1).
  assert ("capacity_stage" ∉ columns df ++ ["dropped_reason"]) as H4.
  { rewrite elem_of_app, list_elem_of_singleton. by intros [?|?]. }
  rewrite (bool_decide_eq_false_2 _ H4).
  assert ("inclusion_margin"
          ∉ (columns df ++ ["dropped_reason"]) ++ ["capacity_stage"]) as H5.
  { rewrite !elem_of_app, !list_elem_of_singleton. by intros [[?|?]|?]. }
  rewrite (bool_decide_eq_false_2 _ H5).
  by rewrite <-!app_assoc.
Qed.

Lemma concat_frames_columns_1 {R} (f : DataFrame R) :
  columns (concat_frames [f]) = columns f.
Proof.
  unfold concat_frames; cbn. apply filter_all, Forall_forall.
  intros c _. apply not_elem_of_nil.
Qed.

Lemma concat_frames_columns_2 {R} (f g : DataFrame R) :
  columns g = columns f → columns (concat_frames [f; g]) = columns f.
Proof.
  intros Hg. unfold concat_frames; cbn. rewrite Hg.
  rewrite (filter_all (λ c, c ∉ [])), (filter_none (λ c, c ∉ columns f)).
  - apply app_nil_r.
  - apply Forall_forall. by intros c Hc Hn.
  - apply Forall_forall. intros c _. apply not_elem_of_nil.
Qed.

(** X14. The columns of a returned bundle: the four candidate frames
    have the columns of the input, and when the input has no column named
    [dropped_reason], [capacity_stage] or [inclusion_margin], [dropped]
    has the input's columns followed by these three, whether rows were
    dropped at one stage, at both, or at none. *)
Theorem bundle_columns df threshold top_k budget r :
  "dropped_reason" ∉ columns df → "capacity_stage" ∉ columns df →
  "inclusion_margin" ∉ columns df →
  apply_constraints df threshold top_k budget = Ok r →
  columns (all_candidates r) = columns df
  ∧ columns (after_threshold r) = columns df
  ∧ columns (after_topk r) = columns df
  ∧ columns (shown r) = columns df
  ∧ columns (dropped r)
    = columns df ++ ["dropped_reason"; "capacity_stage"; "inclusion_margin"].
Proof.
  intros H1 H2 H3 Hr.
  destruct (apply_constraints_Ok _ _ _ _ _ Hr)
    as ([Hall Hth Htk Hsh _ _] & dc1 & dc2 & Hd1 & Hd2 & HD & _).
  assert (columns (all_candidates r) = columns df) as Ca by by rewrite Hall.
  assert (columns (after_threshold r) = columns df) as Ct by by rewrite Hth.
  assert (columns (after_topk r) = columns df) as Ck by by rewrite Htk.
  assert (columns (shown r) = columns df) as Cs by by rewrite Hsh.
  repeat (split; [done|]). rewrite HD.
  assert (∀ stage cutoff,
    columns (mark_dropped stage cutoff
               (outside_topk (after_threshold r) (after_topk r)))
    = columns df ++ ["dropped_reason"; "capacity_stage"; "inclusion_margin"])
    as Hm1.
  { intros. rewrite mark_dropped_columns;
      unfold outside_topk, mask; cbn [columns]; by rewrite Ct. }
  assert (∀ stage cutoff,
    columns (mark_dropped stage cutoff
               (over_budget (after_topk r) (shown r)))
    = columns df ++ ["dropped_reason"; "capacity_stage"; "inclusion_margin"])
    as Hm2.
  { intros. rewrite mark_dropped_columns;
      unfold over_budget, mask; cbn [columns]; by rewrite Ck. }
  apply topk_drops_Ok in Hd1 as [(_ & c1 & _ & ->)|[_ ->]];
    apply budget_drops_Ok in Hd2 as [(_ & c2 & _ & ->)|[_ ->]];
    cbn [app combine_dropped sort_values columns].
  - rewrite concat_frames_columns_2; [apply Hm1|]. by rewrite Hm1, Hm2.
  - rewrite concat_frames_columns_1. apply Hm1.
  - rewrite concat_frames_columns_1. apply Hm2.
  - done.
Qed.

Lemma bundle_columns_witness :
  columns (all_candidates tie_bundle) = columns tie_df
  ∧ columns (after_threshold tie_bundle) = columns tie_df
  ∧ columns (after_topk tie_bundle) = columns tie_df
  ∧ columns (shown tie_bundle) = columns tie_df
  ∧ columns (dropped tie_bundle)
    = columns tie_df
        ++ ["dropped_reason"; "capacity_stage"; "inclusion_margin"].
Proof.
  apply (bundle_columns tie_df (q 0.4) 3 2);
    [apply (bool_decide_unpack _); vm_compute; exact I..|].
  vm_compute; reflexivity.
Defined.

(** ** Running the cascade on its own output *)

Lemma sort_values_sorted {R} (by_ : list (R → R → comparison))
    `{!CmpOrder (lexico by_)} (df : DataFrame R) :
  StronglySorted (cle (lexico by_)) (rows df) → sort_values by_ df = df.
Proof.
  intros Hs. destruct df as [cols rs]. unfold sort_values; cbn in *.
  by rewrite stable_sort_id.
Qed.

Lemma mask_all {R} (p : R → bool) (df : DataFrame R) :
  Forall (λ r, p r) (rows df) → mask p df = df.
Proof.
  intros Hp. destruct df as [cols rs]. unfold mask; cbn in *.
  by rewrite filter_all.
Qed.

Lemma apply_constraints_sorted df threshold top_k budget :
  apply_constraints (sort_candidates df) threshold top_k budget
  = apply_constraints df threshold top_k budget.
Proof.
  unfold apply_constraints. cbv zeta.
  assert (sort_candidates (sort_candidates df) = sort_candidates df) as ->.
  { apply sort_values_sorted; [apply _|apply canonical_order_sorted]. }
  destruct (topk_drops _ _ _) as [dc1| |]; [|done..]. rewrite !bind_Ok.
  destruct (budget_drops _ _ _) as [dc2| |]; [|done..]. rewrite !bind_Ok.
  by rewrite (combine_dropped_columns (sort_candidates df) df).
Qed.

(** X15. The population a bundle reports is a fixed point of the call:
    run again on [all_candidates] with the same threshold and limits, the
    cascade returns the same bundle. *)
Theorem rerun_on_all_candidates df threshold top_k budget r :
  apply_constraints df threshold top_k budget = Ok r →
  apply_constraints (all_candidates r) threshold top_k budget = Ok r.
Proof.
  intros Hr.
  pose proof (apply_constraints_Ok _ _ _ _ _ Hr) as ([Hall _ _ _ _ _] & _).
  by rewrite Hall, apply_constraints_sorted.
Qed.

Lemma rerun_on_all_candidates_witness :
  apply_constraints (all_candidates tie_bundle) (q 0.4) 3 2 = Ok tie_bundle.
Proof.
  apply (rerun_on_all_candidates tie_df_shuffled (q 0.4) 3 2).
  vm_compute; reflexivity.
Defined.

(** X16. The selection is idempotent: for limits that are not negative,
    the call on the [shown] frame of a returned bundle returns, shows
    exactly these rows again in the same order, and drops nothing. *)
Theorem selection_idempotent df threshold top_k budget r :
  0 ≤ top_k → 0 ≤ budget →
  apply_constraints df threshold top_k budget = Ok r →
  ∃ r', apply_constraints (shown r) threshold top_k budget = Ok r'
    ∧ all_candidates r' = shown r
    ∧ shown r' = shown r
    ∧ rows (dropped r') = [].
Proof.
  intros Hk Hb Hr.
  pose proof (apply_constraints_Ok _ _ _ _ _ Hr)
    as ([Hall Hth Htk Hsh _ _] & _).
  assert (sort_candidates (shown r) = shown r) as Hsort.
  { apply sort_values_sorted; [apply _|].
    rewrite Hsh, Htk, Hth, Hall. apply shown_sorted. }
  assert (threshold_filter (shown r) threshold = shown r) as Hfilter.
  { apply mask_all, Forall_forall. intros c Hc. apply Qcleb_le.
    destruct (shown_subseteq_after_topk _ _ _ _ _ Hr) as [n Hn].
    destruct (after_topk_subseteq_after_threshold _ _ _ _ _ Hr) as [m Hm].
    rewrite Hn, Hm in Hc. apply elem_of_take, elem_of_take in Hc.
    by apply (elem_of_after_threshold _ _ _ _ _ c Hr) in Hc as [_ ?]. }
  assert (len (shown r) ≤ top_k ∧ len (shown r) ≤ budget) as [Hlk Hlb].
  { pose proof (len_iloc_to_le (Z.min budget (len (after_topk r)))
                  (after_topk r)) as H1.
    fold (budget_cap (after_topk r) budget) in H1. rewrite <-Hsh in H1.
    destruct (iloc_to_min_len top_k (after_threshold r) Hk) as [_ H2].
    fold (topk_filter (after_threshold r) top_k) in H2. rewrite <-Htk in H2.
    destruct (iloc_to_min_len budget (after_topk r) Hb) as [_ H3].
    fold (budget_cap (after_topk r) budget) in H3. rewrite <-Hsh in H3.
    lia. }
  destruct (apply_constraints_uncut (shown r) threshold top_k budget)
    as (r' & Hr' & Ha & _ & _ & HSH & HD & _).
  { rewrite Hsort, Hfilter. by apply iloc_to_all. }
  { rewrite Hsort, Hfilter. by apply iloc_to_all. }
  exists r'. split; [done|]. rewrite Ha, HSH, HD, Hsort, Hfilter. done.
Qed.

Lemma selection_idempotent_witness :
  ∃ r', apply_constraints (shown tie_bundle) (q 0.4) 3 2 = Ok r'
    ∧ all_candidates r' = shown tie_bundle
    ∧ shown r' = shown tie_bundle
    ∧ rows (dropped r') = [].
Proof.
  apply (selection_idempotent tie_df (q 0.4) 3 2); [lia|lia|].
  vm_compute; reflexivity.
Defined.

(** ** Every eligible row, once *)

Lemma stage_drops_sublist (b : bool) stage kept rest :
  candidate <$> (if b then stage_drops stage kept rest else [])
    `sublist_of` rest.
Proof.
  destruct b; [|apply sublist_nil_l].
  unfold stage_drops. destruct (last kept) as [c|]; simpl.
  - rewrite <-list_fmap_compose. by rewrite list_fmap_id.
  - apply sublist_nil_l.
Qed.

Lemma filter_behind_take {A K} (f : A → K) (P : A → Prop)
    `{∀ x, Decision (P x)} (l : list A) n :
  (∀ x, P x → f x ∉ f <$> take n l) →
  filter P l `sublist_of` drop n l.
Proof.
  intros HP. rewrite <-(take_drop n l) at 1. rewrite filter_app.
  rewrite (filter_none P (take n l)).
  - apply sublist_filter.
  - apply Forall_forall. intros x Hx HPx.
    by apply (HP x HPx), list_elem_of_fmap_2.
Qed.

(** X17. Whenever the call returns, with ids unique or not, every row
    that passed the threshold is accounted for exactly once: the rows of
    [after_threshold] are the rows of [shown] together with the candidates
    of [dropped], each as many times as it passed. *)
Theorem eligible_rows_accounted df threshold top_k budget r :
  apply_constraints df threshold top_k budget = Ok r →
  rows (after_threshold r)
  ≡ₚ rows (shown r) ++ (candidate <$> rows (dropped r)).
Proof.
  intros Hr.
  pose proof (apply_constraints_Ok _ _ _ _ _ Hr)
    as (_ & _ & _ & _ & _ & _ & _ & _ & Hcount & _).
  destruct (after_topk_subseteq_after_threshold _ _ _ _ _ Hr) as [n Hn].
  destruct (shown_subseteq_after_topk _ _ _ _ _ Hr) as [m Hm].
  unfold len in Hcount.
  rewrite (dropped_rows_sorted_concat _ _ _ _ _ Hr) in Hcount |- *.
  rewrite stable_sort_perm in Hcount |- * by apply _.
  unfold drops_before_sort in *.
  set (D1 := if len (after_topk r) <? len (after_threshold r)
             then stage_drops "top_k" (rows (after_topk r))
                    (rows (outside_topk (after_threshold r) (after_topk r)))
             else []) in *.
  set (D2 := if len (shown r) <? len (after_topk r)
             then stage_drops "budget" (rows (shown r))
                    (rows (over_budget (after_topk r) (shown r)))
             else []) in *.
  assert (candidate <$> D1 `sublist_of` drop n (rows (after_threshold r)))
    as S1.
  { unfold D1. etrans; [apply stage_drops_sublist|].
    unfold outside_topk, mask, isin; cbn [rows].
    apply (filter_behind_take id). intros x Hx. rewrite <-Hn.
    by rewrite negb_True, bool_decide_spec in Hx. }
  assert (candidate <$> D2 `sublist_of` drop m (rows (after_topk r))) as S2.
  { unfold D2. etrans; [apply stage_drops_sublist|].
    unfold over_budget, mask, id_set; cbn [rows].
    apply (filter_behind_take id). intros x Hx. rewrite <-Hm.
    by rewrite negb_True, bool_decide_spec, elem_of_list_to_set in Hx. }
  pose proof (sublist_length _ _ S1) as L1.
  pose proof (sublist_length _ _ S2) as L2.
  rewrite length_app in Hcount. rewrite !length_fmap in L1, L2.
  pose proof (take_drop n (rows (after_threshold r))) as E1.
  pose proof (take_drop m (rows (after_topk r))) as E2.
  rewrite <-Hn in E1. rewrite <-Hm in E2.
  assert (length (rows (after_topk r))
          + length (drop n (rows (after_threshold r)))
          = length (rows (after_threshold r)))%nat as F1
    by by rewrite <-length_app, E1.
  assert (length (rows (shown r)) + length (drop m (rows (after_topk r)))
          = length (rows (after_topk r)))%nat as F2
    by by rewrite <-length_app, E2.
  assert (candidate <$> D1 ≡ₚ drop n (rows (after_threshold r))) as P1.
  { apply submseteq_length_Permutation; [by apply sublist_submseteq|].
    rewrite length_fmap. lia. }
  assert (candidate <$> D2 ≡ₚ drop m (rows (after_topk r))) as P2.
  { apply submseteq_length_Permutation; [by apply sublist_submseteq|].
    rewrite length_fmap. lia. }
  rewrite fmap_app, P1, P2.
  trans ((rows (shown r) ++ drop m (rows (after_topk r)))
         ++ drop n (rows (after_threshold r))).
  { by rewrite E2, E1. }
  rewrite <-(assoc_L (++)). f_equiv. apply Permutation_app_comm.
Qed.

Lemma eligible_rows_accounted_witness :
  rows (after_threshold tie_bundle)
  ≡ₚ rows (shown tie_bundle) ++ (candidate <$> rows (dropped tie_bundle)).
Proof.
  apply (eligible_rows_accounted tie_df (q 0.4) 3 2).
  vm_compute; reflexivity.
Defined.

(** * The boundary the app shows for a dropped row *)

(** X18. For every row of the [dropped] table of a bundle returned for a
    budget that is not negative (the closest dropped row among them),
    [get_boundary_for_stage] finds a boundary item, never its fallback
    [(None, "")]: the last row of [after_topk] with the K label for a row
    of stage [top_k], the last row of [shown] with the budget label for a
    row of stage [budget]; the row's margin is the score of that item
    minus its own. *)
Theorem boundary_for_dropped df threshold top_k budget r d :
  0 ≤ budget →
  apply_constraints df threshold top_k budget = Ok r →
  d ∈ rows (dropped r) →
  ∃ c,
    get_boundary_for_stage d (boundary_items r) top_k budget
    = (Some c,
       if decide (capacity_stage d = "top_k")
       then "Kth item (K=" +:+ pretty top_k +:+ ")"
       else "Budget boundary (budget=" +:+ pretty budget +:+ ")")
    ∧ last (rows (if decide (capacity_stage d = "top_k")
                  then after_topk r else shown r)) = Some c
    ∧ inclusion_margin d = (score c - row_score d)%Qc.
Proof.
  intros Hb Hr Hd.
  pose proof (apply_constraints_Ok _ _ _ _ _ Hr) as ([_ _ Htk Hsh Hbi _] & _).
  destruct (dropped_row_origin _ _ _ _ _ _ Hr Hd)
    as (_ & [(Hs & Hlt & _ & c & Hc & Hm)|(Hs & Hlt & _ & c & Hc & Hm)]);
    exists c; unfold get_boundary_for_stage; rewrite Hs.
  - assert (kth_item (boundary_items r) = Some c) as ->.
    { rewrite Hbi, kth_boundary, decide_True; [done|]. split.
      - destruct (Z_lt_le_dec top_k (len (after_threshold r))); [done|].
        rewrite Htk in Hlt. unfold topk_filter in Hlt.
        rewrite iloc_to_all in Hlt by done. lia.
      - intros E. by rewrite E in Hc. }
    rewrite (bool_decide_eq_true_2 ("top_k" = "top_k")) by done.
    rewrite (bool_decide_eq_true_2 (Some c ≠ None)) by done.
    by rewrite !decide_True by done.
  - assert (budget_item (boundary_items r) = Some c) as ->.
    { rewrite Hbi, Hsh, budget_boundary by done. fold (budget_cap (after_topk r) budget).
      rewrite <-Hsh, decide_True; [done|]. split.
      - destruct (iloc_to_min_len budget (after_topk r) Hb) as [_ Hl].
        fold (budget_cap (after_topk r) budget) in Hl. rewrite <-Hsh in Hl.
        lia.
      - intros E. by rewrite E in Hc. }
    rewrite (bool_decide_eq_false_2 ("budget" = "top_k")) by done.
    rewrite (bool_decide_eq_true_2 ("budget" = "budget")) by done.
    rewrite (bool_decide_eq_true_2 (Some c ≠ None)) by done.
    by rewrite !decide_False by done.
Qed.

Lemma boundary_for_dropped_witness :
  let d := mark_row "budget" (q 0.5) (test_row "C0002" 0.5) in
  head (rows (dropped tie_bundle)) = Some d
  ∧ ∃ c,
    get_boundary_for_stage d (boundary_items tie_bundle) 3 2
    = (Some c,
       if decide (capacity_stage d = "top_k")
       then "Kth item (K=" +:+ pretty 3 +:+ ")"
       else "Budget boundary (budget=" +:+ pretty 2 +:+ ")")
    ∧ last (rows (if decide (capacity_stage d = "top_k")
                  then after_topk tie_bundle else shown tie_bundle)) = Some c
    ∧ inclusion_margin d = (score c - row_score d)%Qc.
Proof.
  intros d. split; [vm_compute; reflexivity|].
  apply (boundary_for_dropped tie_df (q 0.4) 3 2 tie_bundle d);
    [lia|vm_compute; reflexivity|vm_compute; left].
Defined.

(** * The scorer of [src/model.py] *)

Lemma scoring_bind_inv {A B} (m : scoring A) (k : A → scoring B) b :
  (m ≫= k) = Scored b → ∃ a, m = Scored a ∧ k a = Scored b.
Proof. destruct m; [by eauto|done..]. Qed.

Lemma scoring_bind_Scored {A B} (a : A) (k : A → scoring B) :
  (Scored a ≫= k) = k a.
Proof. done. Qed.

Lemma check_inv {B} c msg (k : unit → scoring B) b :
  (check c msg ≫= k) = Scored b → c = true ∧ k tt = Scored b.
Proof. by destruct c. Qed.

Lemma coef_Scored coefs key b :
  coef coefs key = Scored b ↔ coefs !! key = Some b.
Proof. unfold coef. destruct (coefs !! key); naive_solver. Qed.

Lemma series_Scored name get df s :
  series name get df = Scored s ↔ name ∈ columns df ∧ s = get <$> rows df.
Proof.
  unfold series. case_bool_decide as Hc; split.
  - by intros [= <-].
  - by intros [_ ->].
  - done.
  - by intros [? _].
Qed.

Lemma Qcltb_lt (x y : Qc) : Qcltb x y ↔ (x < y)%Qc.
Proof.
  unfold Qcltb. rewrite negb_True, Qcleb_le. split.
  - apply Qcnot_le_lt.
  - apply Qclt_not_le.
Qed.

Lemma logit_series b0 b1 b2 b3 b4 (l : list Candidate) :
  add_series
    (add_series
       (add_series (shift b0 (scale b1 (urgency <$> l)))
          (scale b2 (confidence <$> l)))
       (scale b3 (impact <$> l)))
    (scale b4 (cost <$> l))
  = linear_score b0 b1 b2 b3 b4 <$> l.
Proof.
  unfold add_series, shift, scale.
  induction l as [|r l IH]; [done|]. cbn. by rewrite IH.
Qed.

Lemma scored_rows expit b0 b1 b2 b3 b4 (l : list Candidate) :
  zip_with set_score
    (zip_with set_logit l (linear_score b0 b1 b2 b3 b4 <$> l))
    (expit <$> (linear_score b0 b1 b2 b3 b4 <$> l))
  = scored_row expit b0 b1 b2 b3 b4 <$> l.
Proof. induction l as [|r l IH]; [done|]. cbn. by rewrite IH. Qed.

Lemma existsb_isna l : existsb isna l = false.
Proof. by induction l. Qed.

Lemma existsb_isinf l : existsb isinf l = false.
Proof. by induction l. Qed.

Lemma scores_in_range (l : list Candidate) :
  forallb (λ s, Qcltb 0 s) (score <$> l)
  && forallb (λ s, Qcltb s 1) (score <$> l) = true
  ↔ Forall (λ r, (0 < score r)%Qc ∧ (score r < 1)%Qc) l.
Proof.
  rewrite andb_true_iff, <-!Is_true_true, !forallb_True, !Forall_fmap.
  rewrite <-Forall_and. apply Forall_iff. intros r; cbn.
  by rewrite !Qcltb_lt.
Qed.

Section ScoringFacts.
Variable expit : Qc → Qc.

(** The call with every coefficient and every feature column at hand:
    only the range check is left. *)
Lemma score_candidates_eval df coefs b0 b1 b2 b3 b4 :
  coefs !! "intercept" = Some b0 → coefs !! "urgency" = Some b1 →
  coefs !! "confidence" = Some b2 → coefs !! "impact" = Some b3 →
  coefs !! "cost" = Some b4 →
  "urgency" ∈ columns df → "confidence" ∈ columns df →
  "impact" ∈ columns df → "cost" ∈ columns df →
  let df' :=
    mkDF (set_column "score" (set_column "logit" (columns df)))
      (scored_row expit b0 b1 b2 b3 b4 <$> rows df) in
  score_candidates expit df coefs
  = (_ ← check (forallb (λ s, Qcltb 0 s) (score <$> rows df')
                && forallb (λ s, Qcltb s 1) (score <$> rows df'))
          "Scores outside (0, 1)";
     mret df').
Proof.
  intros H0 H1 H2 H3 H4 C1 C2 C3 C4 df'. unfold score_candidates.
  rewrite (proj2 (coef_Scored _ _ _) H0), (proj2 (coef_Scored _ _ _) H1),
    (proj2 (coef_Scored _ _ _) H2), (proj2 (coef_Scored _ _ _) H3),
    (proj2 (coef_Scored _ _ _) H4).
  unfold series. rewrite !bool_decide_eq_true_2 by done.
  rewrite !scoring_bind_Scored. cbv zeta.
  rewrite logit_series. unfold assign; cbn [rows columns].
  rewrite scored_rows, existsb_isna, existsb_isinf. done.
Qed.

Lemma score_candidates_Scored df coefs df' :
  score_candidates expit df coefs = Scored df' →
  ∃ b0 b1 b2 b3 b4,
    (coefs !! "intercept" = Some b0 ∧ coefs !! "urgency" = Some b1 ∧
     coefs !! "confidence" = Some b2 ∧ coefs !! "impact" = Some b3 ∧
     coefs !! "cost" = Some b4) ∧
    ("urgency" ∈ columns df ∧ "confidence" ∈ columns df ∧
     "impact" ∈ columns df ∧ "cost" ∈ columns df) ∧
    df' = mkDF (set_column "score" (set_column "logit" (columns df)))
            (scored_row expit b0 b1 b2 b3 b4 <$> rows df) ∧
    Forall (λ r, (0 < score r)%Qc ∧ (score r < 1)%Qc) (rows df').
Proof.
  intros H. pose proof H as H'. unfold score_candidates in H'.
  apply scoring_bind_inv in H' as (b0 & H0%coef_Scored & H').
  apply scoring_bind_inv in H' as (b1 & H1%coef_Scored & H').
  apply scoring_bind_inv in H' as (x1 & [C1 _]%series_Scored & H').
  apply scoring_bind_inv in H' as (b2 & H2%coef_Scored & H').
  apply scoring_bind_inv in H' as (x2 & [C2 _]%series_Scored & H').
  apply scoring_bind_inv in H' as (b3 & H3%coef_Scored & H').
  apply scoring_bind_inv in H' as (x3 & [C3 _]%series_Scored & H').
  apply scoring_bind_inv in H' as (b4 & H4%coef_Scored & H').
  apply scoring_bind_inv in H' as (x4 & [C4 _]%series_Scored & _).
  exists b0, b1, b2, b3, b4. split; [done|]. split; [done|].
  rewrite (score_candidates_eval df coefs b0 b1 b2 b3 b4) in H by done.
  apply check_inv in H as [Hrange [= <-]]. split; [done|].
  by apply scores_in_range.
Qed.
End ScoringFacts.

(** X19. What a returned frame holds: the call returned only if the five
    coefficients were in [coefs]; the frame has the rows of the input in
    the same order, each with its id, features and case type unchanged,
    [logit] the linear combination of the features and [score] the
    logistic function of [logit], strictly between 0 and 1; [logit] and
    [score] are added to the columns (or overwritten where the input had
    them). *)
Theorem scorer_postcondition expit df coefs df' :
  score_candidates expit df coefs = Scored df' →
  ∃ b0 b1 b2 b3 b4,
    (coefs !! "intercept" = Some b0 ∧ coefs !! "urgency" = Some b1 ∧
     coefs !! "confidence" = Some b2 ∧ coefs !! "impact" = Some b3 ∧
     coefs !! "cost" = Some b4)
    ∧ Forall2 (λ r r',
        id r' = id r ∧ urgency r' = urgency r
        ∧ confidence r' = confidence r ∧ impact r' = impact r
        ∧ cost r' = cost r ∧ case_type r' = case_type r
        ∧ logit r'
          = (b0 + b1 * urgency r + b2 * confidence r + b3 * impact r
             + b4 * cost r)%Qc
        ∧ score r' = expit (logit r')
        ∧ (0 < score r')%Qc ∧ (score r' < 1)%Qc)
        (rows df) (rows df')
    ∧ columns df' = set_column "score" (set_column "logit" (columns df)).
Proof.
  intros (b0 & b1 & b2 & b3 & b4 & Hc & _ & -> & Hrange)
    %score_candidates_Scored.
  exists b0, b1, b2, b3, b4. split; [done|]. split; [|done].
  cbn [rows] in *. apply Forall2_fmap_r, Forall_Forall2_diag.
  rewrite Forall_fmap in Hrange. eapply Forall_impl; [exact Hrange|].
  intros r [H0 H1]. by repeat split.
Qed.

Lemma scorer_postcondition_witness :
  ∃ b0 b1 b2 b3 b4,
    (MODEL_COEFS !! "intercept" = Some b0 ∧ MODEL_COEFS !! "urgency" = Some b1 ∧
     MODEL_COEFS !! "confidence" = Some b2 ∧ MODEL_COEFS !! "impact" = Some b3 ∧
     MODEL_COEFS !! "cost" = Some b4)
    ∧ Forall2 (λ r r',
        id r' = id r ∧ urgency r' = urgency r
        ∧ confidence r' = confidence r ∧ impact r' = impact r
        ∧ cost r' = cost r ∧ case_type r' = case_type r
        ∧ logit r'
          = (b0 + b1 * urgency r + b2 * confidence r + b3 * impact r
             + b4 * cost r)%Qc
        ∧ score r' = clamped_sigmoid (logit r')
        ∧ (0 < score r')%Qc ∧ (score r' < 1)%Qc)
        (rows feature_df) (rows scored_df)
    ∧ columns scored_df
      = set_column "score" (set_column "logit" (columns feature_df)).
Proof.
  apply (scorer_postcondition clamped_sigmoid feature_df MODEL_COEFS scored_df).
  vm_compute; reflexivity.
Defined.

Lemma coef_cases coefs key :
  (∃ b, coefs !! key = Some b ∧ coef coefs key = Scored b)
  ∨ (coefs !! key = None ∧ coef coefs key = KeyError key).
Proof. unfold coef. destruct (coefs !! key); [left|right]; by eauto. Qed.

Lemma series_cases name get df :
  (name ∈ columns df ∧ series name get df = Scored (get <$> rows df))
  ∨ ((name ∉ columns df) ∧ series name get df = KeyError name).
Proof. unfold series. case_bool_decide; [by left|by right]. Qed.

Ltac missing_coef Hmiss key :=
  split;
    [split; [intros _; apply (Hmiss key); [set_solver|done]|by eauto]
    |intros ? [= <-]; left; split; [set_solver|done]].

Ltac missing_column Hmiss key :=
  split;
    [split; [intros _; apply (Hmiss key); [set_solver|done]|by eauto]
    |intros ? [= <-]; right; split; [set_solver|done]].

(** X20. [KeyError] is raised exactly when one of the five coefficients
    is not in [coefs] or one of the four feature columns is not in the
    frame, and its key is then one that is missing. *)
Theorem scorer_key_error expit df coefs :
  ((∃ key, score_candidates expit df coefs = KeyError key)
   ↔ ¬ ((∀ key, key ∈ ["intercept"; "urgency"; "confidence"; "impact"; "cost"]
                → is_Some (coefs !! key))
        ∧ ∀ name, name ∈ ["urgency"; "confidence"; "impact"; "cost"]
                  → name ∈ columns df))
  ∧ ∀ key, score_candidates expit df coefs = KeyError key →
      (key ∈ ["intercept"; "urgency"; "confidence"; "impact"; "cost"]
       ∧ coefs !! key = None)
      ∨ (key ∈ ["urgency"; "confidence"; "impact"; "cost"]
         ∧ key ∉ columns df).
Proof.
  set (complete :=
    (∀ key, key ∈ ["intercept"; "urgency"; "confidence"; "impact"; "cost"]
            → is_Some (coefs !! key))
    ∧ ∀ name, name ∈ ["urgency"; "confidence"; "impact"; "cost"]
              → name ∈ columns df).
  assert (∀ key,
    key ∈ ["intercept"; "urgency"; "confidence"; "impact"; "cost"] →
    coefs !! key = None → ¬ complete) as Hcoef.
  { intros key Hk Hn [Hall _]. destruct (Hall key Hk) as [b Hb]. congruence. }
  assert (∀ name,
    name ∈ ["urgency"; "confidence"; "impact"; "cost"] →
    name ∉ columns df → ¬ complete) as Hcol.
  { intros name Hk Hn [_ Hall]. by apply Hn, Hall. }
  unfold score_candidates.
  destruct (coef_cases coefs "intercept") as [(b0 & H0 & ->)|[H0 ->]];
    [rewrite scoring_bind_Scored|missing_coef Hcoef "intercept"].
  destruct (coef_cases coefs "urgency") as [(b1 & H1 & ->)|[H1 ->]];
    [rewrite scoring_bind_Scored|missing_coef Hcoef "urgency"].
  destruct (series_cases "urgency" urgency df) as [[C1 ->]|[C1 ->]];
    [rewrite scoring_bind_Scored|missing_column Hcol "urgency"].
  destruct (coef_cases coefs "confidence") as [(b2 & H2 & ->)|[H2 ->]];
    [rewrite scoring_bind_Scored|missing_coef Hcoef "confidence"].
  destruct (series_cases "confidence" confidence df) as [[C2 ->]|[C2 ->]];
    [rewrite scoring_bind_Scored|missing_column Hcol "confidence"].
  destruct (coef_cases coefs "impact") as [(b3 & H3 & ->)|[H3 ->]];
    [rewrite scoring_bind_Scored|missing_coef Hcoef "impact"].
  destruct (series_cases "impact" impact df) as [[C3 ->]|[C3 ->]];
    [rewrite scoring_bind_Scored|missing_column Hcol "impact"].
  destruct (coef_cases coefs "cost") as [(b4 & H4 & ->)|[H4 ->]];
    [rewrite scoring_bind_Scored|missing_coef Hcoef "cost"].
  destruct (series_cases "cost" cost df) as [[C4 ->]|[C4 ->]];
    [rewrite scoring_bind_Scored|missing_column Hcol "cost"].
  cbv zeta. rewrite existsb_isna, existsb_isinf.
  assert (complete) as Hcomplete.
  { split.
    - intros key Hk.
      repeat (apply elem_of_cons in Hk as [->|Hk]; [by eauto|]).
      by apply elem_of_nil in Hk.
    - intros name Hk.
      repeat (apply elem_of_cons in Hk as [->|Hk]; [done|]).
      by apply elem_of_nil in Hk. }
  match goal with
  | |- context [check ?c "Scores outside (0, 1)"] => destruct c
  end.
  - split; [split|]; [by intros [key [=]]|done|by intros key [=]].
  - split; [split|]; [by intros [key [=]]|done|by intros key [=]].
Qed.

Lemma scorer_key_error_witness :
  score_candidates clamped_sigmoid feature_df (delete "cost" MODEL_COEFS)
  = KeyError "cost"
  ∧ (("cost" ∈ ["intercept"; "urgency"; "confidence"; "impact"; "cost"]
      ∧ delete "cost" MODEL_COEFS !! "cost" = None)
     ∨ ("cost" ∈ ["urgency"; "confidence"; "impact"; "cost"]
        ∧ "cost" ∉ columns feature_df)).
Proof.
  split; [vm_compute; reflexivity|].
  apply (proj2 (scorer_key_error clamped_sigmoid feature_df
                  (delete "cost" MODEL_COEFS)) "cost").
  vm_compute; reflexivity.
Defined.

(** Inequalities between canonical rationals, read on their fractions. *)
Ltac qc_to_q :=
  unfold Qclt, Qcle, Qcminus, Qcopp, Qcplus, Qcmult, Q2Qc in *;
  cbn [this] in *; rewrite ?Qred_correct in *.

Lemma clamped_sigmoid_range z :
  (0 < clamped_sigmoid z)%Qc ∧ (clamped_sigmoid z < 1)%Qc.
Proof.
  unfold clamped_sigmoid.
  destruct (Qcleb z (Q2Qc (-1))) eqn:E1; [by vm_compute|].
  destruct (Qcleb (Q2Qc 1) z) eqn:E2; [by vm_compute|].
  apply not_true_iff_false in E1, E2.
  rewrite <-Is_true_true, Qcleb_le in E1, E2.
  apply Qcnot_le_lt in E1, E2. qc_to_q. split; lra.
Qed.

Lemma clamped_sigmoid_mono x y :
  (x ≤ y)%Qc → (clamped_sigmoid x ≤ clamped_sigmoid y)%Qc.
Proof.
  intros Hxy. unfold clamped_sigmoid.
  destruct (Qcleb x (Q2Qc (-1))) eqn:X1; destruct (Qcleb y (Q2Qc (-1))) eqn:Y1;
  destruct (Qcleb (Q2Qc 1) x) eqn:X2; destruct (Qcleb (Q2Qc 1) y) eqn:Y2;
  repeat match goal with
  | H : Qcleb _ _ = true |- _ => rewrite <-Is_true_true, Qcleb_le in H
  | H : Qcleb _ _ = false |- _ =>
      apply not_true_iff_false in H; rewrite <-Is_true_true, Qcleb_le in H;
      apply Qcnot_le_lt in H
  end; qc_to_q; lra.
Qed.

Lemma scored_rows_in_range expit b0 b1 b2 b3 b4 (l : list Candidate) :
  Forall (λ r, (0 < score r)%Qc ∧ (score r < 1)%Qc)
    (scored_row expit b0 b1 b2 b3 b4 <$> l)
  ↔ Forall (λ r, (0 < expit (linear_score b0 b1 b2 b3 b4 r))%Qc
                 ∧ (expit (linear_score b0 b1 b2 b3 b4 r) < 1)%Qc) l.
Proof. by rewrite Forall_fmap. Qed.

(** X21. With the five coefficients and the four feature columns at
    hand, the call returns when the logistic function takes every row's
    linear score strictly inside (0, 1), and fails one of its three
    assertions otherwise: it raises no [KeyError] then, and returns no
    frame that holds a score outside (0, 1). *)
Theorem scorer_returns expit df coefs b0 b1 b2 b3 b4 :
  coefs !! "intercept" = Some b0 → coefs !! "urgency" = Some b1 →
  coefs !! "confidence" = Some b2 → coefs !! "impact" = Some b3 →
  coefs !! "cost" = Some b4 →
  "urgency" ∈ columns df → "confidence" ∈ columns df →
  "impact" ∈ columns df → "cost" ∈ columns df →
  (Forall (λ r, (0 < expit (linear_score b0 b1 b2 b3 b4 r))%Qc
                ∧ (expit (linear_score b0 b1 b2 b3 b4 r) < 1)%Qc) (rows df) →
   ∃ df', score_candidates expit df coefs = Scored df' ∧ len df' = len df)
  ∧ (¬ Forall (λ r, (0 < expit (linear_score b0 b1 b2 b3 b4 r))%Qc
                ∧ (expit (linear_score b0 b1 b2 b3 b4 r) < 1)%Qc) (rows df) →
     ∃ msg, score_candidates expit df coefs = ScoreAssertionError msg
       ∧ msg ∈ ["NaN scores detected"; "Inf scores detected";
                "Scores outside (0, 1)"]).
Proof.
  intros H0 H1 H2 H3 H4 C1 C2 C3 C4.
  rewrite (score_candidates_eval expit df coefs b0 b1 b2 b3 b4) by done.
  cbn [rows]. rewrite <-scored_rows_in_range, <-scores_in_range.
  destruct (forallb _ _ && forallb _ _); split; try done.
  - intros _. eexists. split; [reflexivity|].
    unfold len; cbn [rows]. by rewrite length_fmap.
  - intros _. eexists. split; [reflexivity|]. set_solver.
Qed.

Lemma scorer_returns_witness :
  (∃ df', score_candidates clamped_sigmoid feature_df MODEL_COEFS = Scored df'
          ∧ len df' = len feature_df)
  ∧ ∃ msg, score_candidates (λ _, Q2Qc 1) feature_df MODEL_COEFS
           = ScoreAssertionError msg
      ∧ msg ∈ ["NaN scores detected"; "Inf scores detected";
               "Scores outside (0, 1)"].
Proof.
  assert (MODEL_COEFS !! "intercept" = Some (Q2Qc (-1.2))) as H0
    by (vm_compute; reflexivity).
  assert (MODEL_COEFS !! "urgency" = Some (Q2Qc 1.5)) as H1
    by (vm_compute; reflexivity).
  assert (MODEL_COEFS !! "confidence" = Some (Q2Qc 1.0)) as H2
    by (vm_compute; reflexivity).
  assert (MODEL_COEFS !! "impact" = Some (Q2Qc 0.8)) as H3
    by (vm_compute; reflexivity).
  assert (MODEL_COEFS !! "cost" = Some (Q2Qc (-0.6))) as H4
    by (vm_compute; reflexivity).
  assert ("urgency" ∈ columns feature_df) as C1
    by (apply (bool_decide_unpack _); vm_compute; exact I).
  assert ("confidence" ∈ columns feature_df) as C2
    by (apply (bool_decide_unpack _); vm_compute; exact I).
  assert ("impact" ∈ columns feature_df) as C3
    by (apply (bool_decide_unpack _); vm_compute; exact I).
  assert ("cost" ∈ columns feature_df) as C4
    by (apply (bool_decide_unpack _); vm_compute; exact I).
  split.
  - apply (proj1 (scorer_returns clamped_sigmoid feature_df MODEL_COEFS
                    _ _ _ _ _ H0 H1 H2 H3 H4 C1 C2 C3 C4)).
    apply Forall_forall. intros r _. apply clamped_sigmoid_range.
  - apply (proj2 (scorer_returns (λ _, Q2Qc 1) feature_df MODEL_COEFS
                    _ _ _ _ _ H0 H1 H2 H3 H4 C1 C2 C3 C4)).
    intros Hall. apply Forall_inv in Hall as [_ Hlt]. by vm_compute in Hlt.
Defined.

Lemma model_coefs_lookup :
  MODEL_COEFS !! "intercept" = Some (Q2Qc (-1.2))
  ∧ MODEL_COEFS !! "urgency" = Some (Q2Qc 1.5)
  ∧ MODEL_COEFS !! "confidence" = Some (Q2Qc 1.0)
  ∧ MODEL_COEFS !! "impact" = Some (Q2Qc 0.8)
  ∧ MODEL_COEFS !! "cost" = Some (Q2Qc (-0.6)).
Proof. repeat split; vm_compute; reflexivity. Qed.

Lemma model_coefs_linear_mono (a b : Candidate) :
  (urgency a ≤ urgency b)%Qc → (confidence a ≤ confidence b)%Qc →
  (impact a ≤ impact b)%Qc → (cost b ≤ cost a)%Qc →
  (linear_score (Q2Qc (-1.2)) (Q2Qc 1.5) (Q2Qc 1.0) (Q2Qc 0.8)
     (Q2Qc (-0.6)) a
   ≤ linear_score (Q2Qc (-1.2)) (Q2Qc 1.5) (Q2Qc 1.0) (Q2Qc 0.8)
       (Q2Qc (-0.6)) b)%Qc.
Proof. intros H1 H2 H3 H4. unfold linear_score. qc_to_q. lra. Qed.

(** X22. Monotonicity under [MODEL_COEFS]: of two rows of a scored
    frame, the one with at least the urgency, confidence and impact of the
    other and at most its cost has at least its logit and, the logistic
    function being monotone, at least its score. The inequalities are not
    strict: they are the ones rounding, which is monotone, preserves. *)
Theorem score_monotone expit df df' i j a b a' b' :
  (∀ x y, (x ≤ y)%Qc → (expit x ≤ expit y)%Qc) →
  score_candidates expit df MODEL_COEFS = Scored df' →
  rows df !! i = Some a → rows df !! j = Some b →
  rows df' !! i = Some a' → rows df' !! j = Some b' →
  (urgency a ≤ urgency b)%Qc → (confidence a ≤ confidence b)%Qc →
  (impact a ≤ impact b)%Qc → (cost b ≤ cost a)%Qc →
  (logit a' ≤ logit b')%Qc ∧ (score a' ≤ score b')%Qc.
Proof.
  intros Hmono Hs Ha Hb Ha' Hb' H1 H2 H3 H4.
  apply score_candidates_Scored in Hs
    as (b0 & b1 & b2 & b3 & b4 & (E0 & E1 & E2 & E3 & E4) & _ & -> & _).
  destruct model_coefs_lookup as (L0 & L1 & L2 & L3 & L4).
  rewrite L0 in E0. rewrite L1 in E1. rewrite L2 in E2. rewrite L3 in E3.
  rewrite L4 in E4.
  injection E0 as <-. injection E1 as <-. injection E2 as <-.
  injection E3 as <-. injection E4 as <-.
  cbn [rows] in Ha', Hb'. rewrite list_lookup_fmap in Ha', Hb'.
  rewrite Ha in Ha'. rewrite Hb in Hb'.
  injection Ha' as <-. injection Hb' as <-.
  pose proof (model_coefs_linear_mono a b H1 H2 H3 H4) as Hle.
  cbn [scored_row set_score set_logit logit score].
  split; [done|]. by apply Hmono.
Qed.

Lemma score_monotone_witness :
  ∃ a' b', rows scored_df !! 0%nat = Some a' ∧ rows scored_df !! 1%nat = Some b'
    ∧ (logit a' ≤ logit b')%Qc ∧ (score a' ≤ score b')%Qc.
Proof.
  eexists _, _. split; [reflexivity|]. split; [reflexivity|].
  apply (score_monotone clamped_sigmoid feature_df scored_df 0 1
           (feature_row "C0000" 0.5 0.5 0.5 0.5)
           (feature_row "C0001" 0.9 0.5 0.5 0.5));
    try reflexivity; try (by vm_compute).
  apply clamped_sigmoid_mono.
Defined.

Lemma col_id_scored expit b0 b1 b2 b3 b4 (l : list Candidate) :
  id <$> (scored_row expit b0 b1 b2 b3 b4 <$> l) = id <$> l.
Proof. induction l as [|r l IH]; [done|]. cbn. by rewrite IH. Qed.

(** X23. The scorer feeds the cascade: a frame the scorer returned for
    a population with unique ids meets the input contract of
    [apply_constraints] for every threshold in [0, 1] and limits at least
    1, and the cascade returns on it, counting every row of the
    population. *)
Theorem scored_population_accepted expit df coefs df' threshold top_k budget :
  score_candidates expit df coefs = Scored df' →
  NoDup (col_id df) →
  (0 ≤ threshold)%Qc → (threshold ≤ 1)%Qc → 1 ≤ top_k → 1 ≤ budget →
  input_contract df' threshold top_k budget
  ∧ ∃ r, apply_constraints df' threshold top_k budget = Ok r
      ∧ n_total (counts r) = len df
      ∧ col_id (all_candidates r) ≡ₚ col_id df.
Proof.
  intros Hs Hnd Ht0 Ht1 Hk Hb.
  apply score_candidates_Scored in Hs
    as (b0 & b1 & b2 & b3 & b4 & _ & _ & Hdf' & Hrange).
  assert (col_id df' = col_id df) as Hids.
  { rewrite Hdf'. unfold col_id; cbn [rows row_id candidate_row].
    apply col_id_scored. }
  assert (len df' = len df) as Hlen.
  { rewrite Hdf'. unfold len; cbn [rows]. by rewrite length_fmap. }
  assert (NoDup (col_id df')) as Hnd' by by rewrite Hids.
  split; [by repeat split|].
  destruct (apply_constraints_valid df' threshold top_k budget Hnd' Hk Hb)
    as (r & Hr & [Hall _ _ _ _ Hc] & _).
  exists r. split; [done|]. rewrite Hc, Hall; cbn [n_total].
  split; [by rewrite len_sort_candidates|].
  rewrite <-Hids. unfold col_id. by rewrite sort_candidates_perm.
Qed.

Lemma scored_population_accepted_witness :
  input_contract scored_df (q 0.5) 2 1
  ∧ ∃ r, apply_constraints scored_df (q 0.5) 2 1 = Ok r
      ∧ n_total (counts r) = len feature_df
      ∧ col_id (all_candidates r) ≡ₚ col_id feature_df.
Proof.
  apply (scored_population_accepted clamped_sigmoid feature_df MODEL_COEFS);
    try lia; try (by vm_compute).
  apply (bool_decide_unpack _). vm_compute. exact I.
Defined.
